(** * The native focal point picker: coordinates, gestures and sliders

    A shallow embedding of
    [packages/components/src/focal-point-picker/index.native.js]: the
    component's local state, the animated [pan] value it drives, its event
    handlers, and the partial updates it hands to the [onChange] prop; and of
    [packages/editor/src/components/post-locked-modal/index.js]: the
    heartbeat handlers and the render of the post lock modal.

    JavaScript numbers are idealised: a finite double is an exact rational, so
    rounding error, signed zero and overflow are not represented, while [NaN]
    and the two infinities are, since the handlers' truthiness tests and the
    division by an unmeasured container depend on them.  Nothing below relies
    on a product or a quotient being exact beyond the checked scenarios: the
    slider value, which is a rounded product, is stated on binary64, and the
    concrete scenarios are checked against binary64 arithmetic at the end. *)

From Stdlib Require Import ZArith QArith Qcanon Qround List Lqa Floats.
From stdpp Require Import base numbers strings gmap.

Local Open Scope Z_scope.

(** ** JavaScript numbers and values *)

Inductive number : Type :=
  | Finite (q : Qc)
  | NaN
  | PosInf
  | NegInf.

Inductive value : Type :=
  | Undefined
  | Num (n : number).

Global Instance number_eq_dec : EqDecision number.
Proof. solve_decision. Defined.

Global Instance value_eq_dec : EqDecision value.
Proof. solve_decision. Defined.

(** Literals: an integer, and a decimal fraction given as a ratio. *)
Definition ofZ (z : Z) : number := Finite (Q2Qc (inject_Z z)).
Definition ofQ (q : Q) : number := Finite (Q2Qc q).

Definition infinity (positive : bool) : number :=
  if positive then PosInf else NegInf.

(** [ToNumber]: [undefined] converts to [NaN]. *)
Definition ToNumber (v : value) : number :=
  match v with
  | Undefined => NaN
  | Num n => n
  end.

(** [ToBoolean] (truthiness): [undefined], [NaN] and zero are falsy. *)
Definition ToBoolean (v : value) : bool :=
  match v with
  | Undefined => false
  | Num NaN => false
  | Num (Finite q) => negb (bool_decide (q = 0%Qc))
  | Num PosInf | Num NegInf => true
  end.

(** The [*] operator. *)
Definition js_mul (a b : number) : number :=
  match a, b with
  | NaN, _ | _, NaN => NaN
  | Finite p, Finite q => Finite (p * q)
  | Finite p, PosInf | PosInf, Finite p =>
      if bool_decide (p = 0%Qc) then NaN else infinity (bool_decide (0 < p)%Qc)
  | Finite p, NegInf | NegInf, Finite p =>
      if bool_decide (p = 0%Qc) then NaN else infinity (bool_decide (p < 0)%Qc)
  | PosInf, PosInf | NegInf, NegInf => PosInf
  | PosInf, NegInf | NegInf, PosInf => NegInf
  end.

(** The [/] operator; the only zero is the positive one. *)
Definition js_div (a b : number) : number :=
  match a, b with
  | NaN, _ | _, NaN => NaN
  | Finite p, Finite q =>
      if bool_decide (q = 0%Qc) then
        if bool_decide (p = 0%Qc) then NaN else infinity (bool_decide (0 < p)%Qc)
      else Finite (p / q)
  | Finite _, (PosInf | NegInf) => Finite 0%Qc
  | PosInf, Finite q => infinity (negb (bool_decide (q < 0)%Qc))
  | NegInf, Finite q => infinity (bool_decide (q < 0)%Qc)
  | (PosInf | NegInf), (PosInf | NegInf) => NaN
  end.

(** The [+] operator on numbers. *)
Definition js_add (a b : number) : number :=
  match a, b with
  | NaN, _ | _, NaN => NaN
  | Finite p, Finite q => Finite (p + q)
  | PosInf, NegInf | NegInf, PosInf => NaN
  | PosInf, _ | _, PosInf => PosInf
  | NegInf, _ | _, NegInf => NegInf
  end.

(** The [<] operator on numbers: every comparison with [NaN] is false. *)
Definition js_lt (a b : number) : bool :=
  match a, b with
  | NaN, _ | _, NaN => false
  | Finite p, Finite q => bool_decide (p < q)%Qc
  | NegInf, (Finite _ | PosInf) => true
  | Finite _, PosInf => true
  | _, _ => false
  end.

(** [===] on numbers: [NaN] equals nothing, itself included. *)
Definition number_strict_eq (a b : number) : bool :=
  match a, b with
  | NaN, _ | _, NaN => false
  | _, _ => bool_decide (a = b)
  end.

(** [!==] on values. *)
Definition strict_neq (a b : value) : bool :=
  match a, b with
  | Undefined, Undefined => false
  | Num m, Num n => negb (number_strict_eq m n)
  | _, _ => true
  end.

(** [Math.round]: the nearest integer, a tie going towards positive
    infinity. *)
Definition Math_round (a : number) : number :=
  match a with
  | Finite q => ofZ (Qfloor (q + Q2Qc (1 # 2))%Qc)
  | other => other
  end.

(** ** Objects *)

(** A plain object: a finite map from property names to values. *)
Abbreviation obj := (gmap string value).

(** Property access [o.k]: a missing property reads as [undefined]. *)
Definition get (o : obj) (k : string) : value := default Undefined (o !! k).

(** Object spread [{ ...a, ...b }]: the properties of [b] win. *)
Definition spread (a b : obj) : obj := b ∪ a.

(** ** The animated value

    React Native's [Animated.Value] as the component uses it: a tracked
    [_value] (which the grant handler reads directly) and an [_offset]; the
    position handed to the style is their sum. *)

Module Animated.

Record Value : Type := mkValue { _value : number; _offset : number }.

(** [new Animated.Value()] *)
Definition init : Value := mkValue (ofZ 0) (ofZ 0).

Definition setValue (v : number) (a : Value) : Value :=
  mkValue v (_offset a).

Definition setOffset (o : number) (a : Value) : Value :=
  mkValue (_value a) o.

(** [flattenOffset]: merge the offset into the value, reset the offset. *)
Definition flattenOffset (a : Value) : Value :=
  mkValue (js_add (_value a) (_offset a)) (ofZ 0).

(** [__getValue]: what an interpolation or a style reads. *)
Definition getValue (a : Value) : number :=
  js_add (_value a) (_offset a).

Record ValueXY : Type := mkValueXY { x : Value; y : Value }.

(** [new Animated.ValueXY()] *)
Definition initXY : ValueXY := mkValueXY init init.

Definition setValueXY (vx vy : number) (p : ValueXY) : ValueXY :=
  mkValueXY (setValue vx (x p)) (setValue vy (y p)).

Definition setOffsetXY (ox oy : number) (p : ValueXY) : ValueXY :=
  mkValueXY (setOffset ox (x p)) (setOffset oy (y p)).

Definition flattenOffsetXY (p : ValueXY) : ValueXY :=
  mkValueXY (flattenOffset (x p)) (flattenOffset (y p)).

(** The pair read by the two [translate] interpolations. *)
Definition getValueXY (p : ValueXY) : number * number :=
  (getValue (x p), getValue (y p)).

(** The baseline of the gesture in progress. *)
Definition getOffsetXY (p : ValueXY) : number * number :=
  (_offset (x p), _offset (y p)).

End Animated.

(** ** Component state and effects *)

Record Size : Type := mkSize { width : number; height : number }.

Global Instance Size_eq_dec : EqDecision Size.
Proof. solve_decision. Defined.

(** The [useState] cells of the component and the [pan] ref. *)
Record State : Type := mkState {
  containerSize : option Size;
  sliderKey : Z;
  tooltipVisible : bool;
  displayPlaceholder : bool;
  videoNaturalSize : option Size;
  pan : Animated.ValueXY
}.

(** The state of a freshly mounted component. *)
Definition initialState : State :=
  mkState None 0 true true None Animated.initXY.

(** Calls of the two callback props, in the order they are made.  [onChange]
    receives an updater from the previous focal point to the next one. *)
Inductive Effect : Type :=
  | shouldEnableBottomSheetScroll (enabled : bool)
  | onChange (updater : obj → obj).

(** A handler reads and writes the state and calls callback props. *)
Definition M (A : Type) : Type := State → A * State * list Effect.

Global Instance M_ret : MRet M := λ A a s, (a, s, []).

Global Instance M_bind : MBind M := λ A B f m s,
  let '(a, s1, out1) := m s in
  let '(b, s2, out2) := f a s1 in
  (b, s2, out1 ++ out2).

Definition gets {A : Type} (proj : State → A) : M A := λ s, (proj s, s, []).

Definition modify (f : State → State) : M unit := λ s, (tt, f s, []).

Definition call (e : Effect) : M unit := λ s, (tt, s, [e]).

(** The state a handler leaves, and the callbacks it made. *)
Definition stateAfter {A : Type} (m : M A) (s : State) : State := (m s).1.2.
Definition effects {A : Type} (m : M A) (s : State) : list Effect := (m s).2.
Definition result {A : Type} (m : M A) (s : State) : A := (m s).1.1.

Definition setContainerSize (c : option Size) : M unit :=
  modify (λ s, mkState c (sliderKey s) (tooltipVisible s)
                 (displayPlaceholder s) (videoNaturalSize s) (pan s)).

(** The functional form [setSliderKey( ( prevState ) => ... )]. *)
Definition setSliderKey (f : Z → Z) : M unit :=
  modify (λ s, mkState (containerSize s) (f (sliderKey s)) (tooltipVisible s)
                 (displayPlaceholder s) (videoNaturalSize s) (pan s)).

Definition setTooltipVisible (b : bool) : M unit :=
  modify (λ s, mkState (containerSize s) (sliderKey s) b
                 (displayPlaceholder s) (videoNaturalSize s) (pan s)).

Definition setDisplayPlaceholder (b : bool) : M unit :=
  modify (λ s, mkState (containerSize s) (sliderKey s) (tooltipVisible s)
                 b (videoNaturalSize s) (pan s)).

Definition setVideoNaturalSize (c : option Size) : M unit :=
  modify (λ s, mkState (containerSize s) (sliderKey s) (tooltipVisible s)
                 (displayPlaceholder s) c (pan s)).

(** A method call on the [pan] ref. *)
Definition onPan (f : Animated.ValueXY → Animated.ValueXY) : M unit :=
  modify (λ s, mkState (containerSize s) (sliderKey s) (tooltipVisible s)
                 (displayPlaceholder s) (videoNaturalSize s) (f (pan s))).

(** Optional chaining: [undefined] when the size is [null]. *)
Definition optChain (c : option Size) (field : Size → number) : value :=
  match c with
  | None => Undefined
  | Some sz => Num (field sz)
  end.

(** [containerSize?.width] and [containerSize?.height]. *)
Definition optWidth (c : option Size) : value := optChain c width.
Definition optHeight (c : option Size) : value := optChain c height.

(** ** The component *)

Definition MIN_POSITION_VALUE : number := ofZ 0.
Definition MAX_POSITION_VALUE : number := ofZ 100.

(** [setPosition( { x, y } )]: the updater handed to [onChange] spreads the
    previous focal point, then each coordinate that is truthy. *)
Definition setPosition (position : obj) : M unit :=
  let x := get position "x" in
  let y := get position "y" in
  call (onChange (λ prevState,
    spread
      (spread prevState (if ToBoolean x then {[ "x" := x ]} else ∅))
      (if ToBoolean y then {[ "y" := y ]} else ∅))).

(** [onLayout] of the media container ([onLayoutMeasured] in the
    specification). *)
Definition onLayout (width height : number) : M unit :=
  containerSize ← gets containerSize;
  if strict_neq (Num width) (Num (ofZ 0))
     && strict_neq (Num height) (Num (ofZ 0))
     && (strict_neq (optWidth containerSize) (Num width)
         || strict_neq (optHeight containerSize) (Num height))
  then setContainerSize (Some (mkSize width height))
  else mret tt.

(** [onPanResponderGrant] ([onDragStart]): the touch is at
    [( locationX, locationY )]. *)
Definition onPanResponderGrant (x y : number) : M unit :=
  call (shouldEnableBottomSheetScroll false);;
  onPan (Animated.setValueXY x y);;
  pan ← gets pan;
  onPan (Animated.setOffsetXY
           (Animated._value (Animated.x pan))
           (Animated._value (Animated.y pan))).

(** [onPanResponderMove] ([onDragMove]): [Animated.event] stores the
    gesture's [dx] in [pan.x] and its [dy] in [pan.y]. *)
Definition onPanResponderMove (dx dy : number) : M unit :=
  onPan (Animated.setValueXY dx dy).

(** [onPanResponderRelease] ([onDragEnd]).  The handler closes over the
    [containerSize] of the render that memoised it, which is the current one
    since the memo depends on [containerSize]. *)
Definition onPanResponderRelease (x y : number) : M unit :=
  call (shouldEnableBottomSheetScroll true);;
  setTooltipVisible false;;
  onPan Animated.flattenOffsetXY;;
  containerSize ← gets containerSize;
  setPosition
    {[ "x" := Num (js_div x (ToNumber (optWidth containerSize)));
       "y" := Num (js_div y (ToNumber (optHeight containerSize))) ]};;
  setSliderKey (λ prevState, prevState + 1).

(** The [onChange] of the two range controls ([onAxisSliderChanged]). *)
Definition onChangeX (x : number) : M unit :=
  setPosition {[ "x" := Num (js_div x (ofZ 100)) ]}.

Definition onChangeY (y : number) : M unit :=
  setPosition {[ "y" := Num (js_div y (ofZ 100)) ]}.

Definition onImageDataLoad : M unit :=
  setDisplayPlaceholder false.

Definition onLoad (height width : number) : M unit :=
  setVideoNaturalSize (Some (mkSize width height));;
  setDisplayPlaceholder false.

(** What a render hands to one [RangeControl]: the key is the axis prefix
    with the slider key appended. *)
Record RangeControlProps : Type := mkRangeControlProps {
  rc_key : string * Z;
  rc_max : number;
  rc_min : number;
  rc_value : number
}.

(** The function body: place the cursor when the container is measured,
    then describe the two sliders for [focalPoint]. *)
Definition render (focalPoint : obj) : M (RangeControlProps * RangeControlProps) :=
  containerSize ← gets containerSize;
  match containerSize with
  | Some sz =>
      onPan (Animated.setValueXY
               (js_mul (ToNumber (get focalPoint "x")) (width sz))
               (js_mul (ToNumber (get focalPoint "y")) (height sz)))
  | None => mret tt
  end;;
  sliderKey ← gets sliderKey;
  mret
    (mkRangeControlProps ("xAxis-", sliderKey)
       MAX_POSITION_VALUE MIN_POSITION_VALUE
       (Math_round (js_mul (ToNumber (get focalPoint "x")) (ofZ 100))),
     mkRangeControlProps ("yAxis-", sliderKey)
       MAX_POSITION_VALUE MIN_POSITION_VALUE
       (Math_round (js_mul (ToNumber (get focalPoint "y")) (ofZ 100)))).

(** ** Event traces *)

Inductive Event : Type :=
  | Render (focalPoint : obj)
  | Layout (width height : number)
  | Grant (locationX locationY : number)
  | Move (dx dy : number)
  | Release (locationX locationY : number)
  | SliderX (x : number)
  | SliderY (y : number)
  | ImageDataLoad
  | VideoLoad (height width : number).

Definition handle (e : Event) : M unit :=
  match e with
  | Render focalPoint => render focalPoint;; mret tt
  | Layout w h => onLayout w h
  | Grant x y => onPanResponderGrant x y
  | Move dx dy => onPanResponderMove dx dy
  | Release x y => onPanResponderRelease x y
  | SliderX x => onChangeX x
  | SliderY y => onChangeY y
  | ImageDataLoad => onImageDataLoad
  | VideoLoad h w => onLoad h w
  end.

Fixpoint run (events : list Event) : M unit :=
  match events with
  | [] => mret tt
  | e :: rest => handle e;; run rest
  end.

(** The updaters among a list of callback calls. *)
Definition changes (out : list Effect) : list (obj → obj) :=
  omap (λ e, match e with onChange u => Some u | _ => None end) out.

(** ** Notions used in the statements *)

(** The partial updates a handler emits: each updater read off on the empty
    object, where it shows exactly the keys it sets. *)
Definition emitted {A : Type} (m : M A) (s : State) : list obj :=
  map (λ u : obj → obj, u ∅) (changes (effects m s)).

(** The object [setPosition] merges onto the previous focal point. *)
Definition partialUpdate (position : obj) : obj :=
  spread (if ToBoolean (get position "x")
          then {[ "x" := get position "x" ]} else ∅)
         (if ToBoolean (get position "y")
          then {[ "y" := get position "y" ]} else ∅).

(** The argument [onPanResponderRelease] passes to [setPosition]. *)
Definition releasePosition (s : State) (x y : number) : obj :=
  {[ "x" := Num (js_div x (ToNumber (optWidth (containerSize s))));
     "y" := Num (js_div y (ToNumber (optHeight (containerSize s)))) ]}.

(** The condition under which [onLayout] stores the measured size. *)
Definition layoutGuard (stored : option Size) (w h : number) : bool :=
  strict_neq (Num w) (Num (ofZ 0))
  && strict_neq (Num h) (Num (ofZ 0))
  && (strict_neq (optWidth stored) (Num w)
      || strict_neq (optHeight stored) (Num h)).

(** Is the event the end of a drag? *)
Definition isRelease (e : Event) : bool :=
  match e with
  | Release _ _ => true
  | _ => false
  end.

(** The number of completed drags in a trace. *)
Definition releases (events : list Event) : Z :=
  Z.of_nat (length (List.filter isRelease events)).

(** The events of a run of moves, one per displacement. *)
Definition moves (deltas : list (number * number)) : list Event :=
  map (λ d, Move d.1 d.2) deltas.

(** ** Binary64

    The doubles a JavaScript engine computes with, for checking the concrete
    scenarios against the idealised numbers above. *)

Module Binary64.

Definition two52 : float := 4503599627370496%float.

(** The largest integer not above [x].  Below 2^52 in magnitude, adding and
    subtracting 2^52 rounds to an integer, which is then corrected downwards;
    from 2^52 on every double is an integer. *)
Definition floor (x : float) : float :=
  if PrimFloat.ltb (PrimFloat.abs x) two52 then
    let r := if PrimFloat.leb 0%float x
             then PrimFloat.sub (PrimFloat.add x two52) two52
             else PrimFloat.add (PrimFloat.sub x two52) two52 in
    if PrimFloat.ltb x r then PrimFloat.sub r 1%float else r
  else x.

(** [Math.round] on doubles. *)
Definition Math_round (x : float) : float :=
  let r := floor x in
  if PrimFloat.leb 0.5%float (PrimFloat.sub x r)
  then PrimFloat.add r 1%float
  else r.

(** The number a double stands for, exactly. *)
Definition exact (f : float) : number :=
  match Prim2SF f with
  | S754_zero _ => ofZ 0
  | S754_infinity negative => infinity (negb negative)
  | S754_nan => NaN
  | S754_finite negative m e =>
      ofQ ((if negative then -1 else 1) * inject_Z (Z.pos m) * Qpower 2 e)
  end.




(** A small non-negative integer as a double. *)
Definition ofZ (z : Z) : float := PrimFloat.of_uint63 (Uint63.of_Z z).

End Binary64.

(** ** The rest of the view *)

(** [mediaPlaceholderStyles]: the placeholder style is in the list while
    [displayPlaceholder] holds. *)
Definition mediaPlaceholderStyles (s : State) : bool := displayPlaceholder s.

(** The [aspectRatio] of the video style,
    [videoNaturalSize && videoNaturalSize.width / videoNaturalSize.height]:
    [None] stands for [null]. *)
Definition aspectRatio (s : State) : option number :=
  match videoNaturalSize s with
  | None => None
  | Some sz => Some (js_div (width sz) (height sz))
  end.

(** The arguments of the calls to [shouldEnableBottomSheetScroll]. *)
Definition scrollCalls (out : list Effect) : list bool :=
  omap (λ e, match e with
             | shouldEnableBottomSheetScroll b => Some b
             | _ => None
             end) out.

(** What an event asks of the scroll host. *)
Definition scrollOf (e : Event) : list bool :=
  match e with
  | Grant _ _ => [false]
  | Release _ _ => [true]
  | _ => []
  end.

(** Does the event report loaded media? *)
Definition isLoad (e : Event) : bool :=
  match e with
  | ImageDataLoad | VideoLoad _ _ => true
  | _ => false
  end.

(** The stored size after a trace, when every measurement with two non-zero
    dimensions is simply stored. *)
Fixpoint measured (events : list Event) (stored : option Size) : option Size :=
  match events with
  | [] => stored
  | Layout w h :: rest =>
      measured rest
        (if bool_decide (w ≠ ofZ 0 ∧ h ≠ ofZ 0)
         then Some (mkSize w h) else stored)
  | _ :: rest => measured rest stored
  end.

(** Does the event report a loaded video? *)
Definition isVideoLoad (e : Event) : bool :=
  match e with
  | VideoLoad _ _ => true
  | _ => false
  end.

(** ** The post lock modal

    [packages/editor/src/components/post-locked-modal/index.js]: the
    heartbeat handlers and the render of [PostLockedModal], over the props
    the component receives. *)

Module PostLockedModal.

(** Truthiness of a string property that may be missing ([None] is
    [undefined]): a present string is truthy unless empty. *)
Definition truthy (v : option string) : bool :=
  match v with
  | None => false
  | Some t => bool_decide (t ≠ "")
  end.

Record PostLockUtils : Type := mkPostLockUtils {
  nonce : string;
  unlockNonce : string;
  ajaxUrl : string
}.

Record User : Type := mkUser {
  name : option string;
  avatar : option string
}.

(** [this.props], as [withSelect] provides them; [user] may be missing. *)
Record Props : Type := mkProps {
  isLocked : bool;
  isTakeover : bool;
  user : option User;
  postId : Z;
  postLockUtils : PostLockUtils;
  activePostLock : option string
}.

(** A value in the data of a heartbeat request: the lock refresh this
    component writes, or what another listener has put there. *)
Inductive HeartbeatValue : Type :=
  | RefreshPostLock (lock : option string) (post_id : Z)
  | OtherValue (payload : string).

(** The entry of a heartbeat response the component reads; each property may
    be missing. *)
Record LockError : Type := mkLockError { avatar_src : option string }.

Record Received : Type := mkReceived {
  lock_error : option LockError;
  new_lock : option string
}.

(** The argument of [updatePostLock]: a key left out of the object literal
    is [None]. *)
Record LockUpdate : Type := mkLockUpdate {
  upd_isLocked : bool;
  upd_isTakeover : option bool;
  upd_user : option User;
  upd_activePostLock : option string
}.

Record RemoveLockData : Type := mkRemoveLockData {
  action : string;
  _wpnonce : string;
  post_ID : Z;
  active_post_lock : option string
}.

(** The settings object given to [jQuery.post]. *)
Record Request : Type := mkRequest {
  async : bool;
  url : string;
  data : RemoveLockData
}.

(** The calls a handler makes, in order. *)
Inductive Call : Type :=
  | autosave
  | updatePostLock (lock : LockUpdate)
  | jQuery_post (request : Request).

Definition REFRESH_KEY : string := "wp-refresh-post-lock".

(** [sendPostLock( event, data )]: the data object after the call. *)
Definition sendPostLock (props : Props) (data : gmap string HeartbeatValue)
    : gmap string HeartbeatValue :=
  if isLocked props then data
  else <[ REFRESH_KEY := RefreshPostLock (activePostLock props) (postId props) ]> data.

(** [receivePostLock( event, data )]. *)
Definition receivePostLock (data : gmap string Received) : list Call :=
  match data !! REFRESH_KEY with
  | None => []
  | Some received =>
      match lock_error received with
      | Some error =>
          [ autosave;
            updatePostLock
              (mkLockUpdate true (Some true)
                 (Some (mkUser None (avatar_src error))) None) ]
      | None =>
          if truthy (new_lock received)
          then [ updatePostLock
                   (mkLockUpdate false None None (new_lock received)) ]
          else []
      end
  end.

(** [releasePostLock()]. *)
Definition releasePostLock (props : Props) : list Call :=
  if isLocked props || negb (truthy (activePostLock props)) then []
  else
    [ jQuery_post
        (mkRequest false (ajaxUrl (postLockUtils props))
           (mkRemoveLockData "wp-remove-post-lock"
              (unlockNonce (postLockUtils props))
              (postId props)
              (activePostLock props))) ].

(** A query argument of the take-over link. *)
Inductive QueryArg : Type :=
  | QString (s : string)
  | QBool (b : bool)
  | QNumber (z : Z).

(** A link target, by the helper that builds it. *)
Inductive Href : Type :=
  | addQueryArgs (url : string) (args : list (string * QueryArg))
  | getWPAdminURL (page : string).

(** A message: [sprintf] of a template and the user's display name, or a
    fixed text. *)
Inductive Message : Type :=
  | sprintf (template : string) (displayName : string)
  | text (content : string).

Record TakeoverSection : Type := mkTakeoverSection {
  takeover_message : Message;
  takeover_allPosts : Href
}.

(** The preview button between the two links has no props and is left
    out. *)
Record LockedSection : Type := mkLockedSection {
  locked_message : Message;
  locked_allPosts : Href;
  locked_takeOver : Href
}.

Record Modal : Type := mkModal {
  title : string;
  focusOnMount : bool;
  shouldCloseOnClickOutside : bool;
  shouldCloseOnEsc : bool;
  isDismissable : bool;
  className : string;
  avatarImg : option string;
  takeoverSection : option TakeoverSection;
  lockedSection : option LockedSection
}.

(** What [render()] gives: [null], an element, or the error of reading a
    property of a missing [user]. *)
Inductive Rendered : Type :=
  | TypeError
  | Null
  | Element (modal : Modal).

Definition unlockUrl (props : Props) : Href :=
  addQueryArgs "post.php"
    [ ("get-post-lock", QString "1");
      ("lockKey", QBool true);
      ("post", QNumber (postId props));
      ("action", QString "edit");
      ("_wpnonce", QString (nonce (postLockUtils props))) ].

Definition allPosts : Href := getWPAdminURL "edit.php".

(** The sentence of a section: with the display name when it is truthy. *)
Definition message (userDisplayName : option string)
    (named anonymous : string) : Message :=
  if truthy userDisplayName
  then sprintf named (default "" userDisplayName)
  else text anonymous.

Definition render (props : Props) : Rendered :=
  if negb (isLocked props) then Null
  else
    match user props with
    | None => TypeError
    | Some user =>
        let userDisplayName := name user in
        let userAvatar := avatar user in
        Element
          (mkModal
             (if isTakeover props
              then "Someone else has taken over this post."
              else "This post is already being edited.")
             true false false false
             "editor-post-locked-modal"
             (if truthy userAvatar then userAvatar else None)
             (if isTakeover props
              then Some (mkTakeoverSection
                     (message userDisplayName
                        "%s now has editing control of this post. Don't worry, your changes up to this moment have been saved."
                        "Another user now has editing control of this post. Don't worry, your changes up to this moment have been saved.")
                     allPosts)
              else None)
             (if negb (isTakeover props)
              then Some (mkLockedSection
                     (message userDisplayName
                        "%s is currently working on this post, which means you cannot make changes, unless you take over."
                        "Another user is currently working on this post, which means you cannot make changes, unless you take over.")
                     allPosts
                     (unlockUrl props))
              else None))
    end.

End PostLockedModal.

(** Is the call an [updatePostLock]? *)
Definition isUpdate (c : PostLockedModal.Call) : bool :=
  match c with
  | PostLockedModal.updatePostLock _ => true
  | _ => false
  end.

(** ** Unfolding handlers *)

Ltac run_handler :=
  cbv [stateAfter effects result emitted changes handle run
       onLayout onPanResponderGrant onPanResponderMove onPanResponderRelease
       onChangeX onChangeY onImageDataLoad onLoad render setPosition
       setContainerSize setSliderKey setTooltipVisible setDisplayPlaceholder
       setVideoNaturalSize onPan gets modify call
       mbind mret M_bind M_ret];
  cbn [fst snd app omap list_omap map fmap list_fmap
       containerSize sliderKey tooltipVisible displayPlaceholder
       videoNaturalSize pan].

(** ** Numbers: basic facts *)

Section NumberFacts.

Implicit Types (a b : number) (p q : Qc) (v : value).

Lemma js_add_comm a b : js_add a b = js_add b a.
Proof.
  destruct a as [p| | |], b as [q| | |]; simpl; try reflexivity.
  f_equal. ring.
Qed.

Lemma js_div_NaN_r a : js_div a NaN = NaN.
Proof. destruct a; reflexivity. Qed.

(** A falsy number is zero or [NaN]. *)
Lemma ToBoolean_false_Num a :
  ToBoolean (Num a) = false ↔ a = Finite 0%Qc ∨ a = NaN.
Proof.
  destruct a as [p| | |]; simpl.
  - rewrite negb_false_iff, bool_decide_eq_true.
    split; [intros ->; by left | intros [[=]|[=]]; done].
  - split; [by right | done].
  - split; [done | intros [[=]|[=]]].
  - split; [done | intros [[=]|[=]]].
Qed.

Lemma Qc_div_0_l q : (0 / q)%Qc = 0%Qc.
Proof. unfold Qcdiv. ring. Qed.

(** Zero divided by anything is zero or [NaN]: falsy either way. *)
Lemma js_div_zero_l_falsy a : ToBoolean (Num (js_div (ofZ 0) a)) = false.
Proof.
  destruct a as [q| | |]; try reflexivity.
  unfold ofZ, js_div. destruct (bool_decide (q = 0%Qc)) eqn:Hq.
  - reflexivity.
  - change (Q2Qc (inject_Z 0)) with 0%Qc. rewrite Qc_div_0_l. reflexivity.
Qed.

Lemma Qc_pos_ne_0 q : (0 < q)%Qc → q ≠ 0%Qc.
Proof. intros H ->. exact (Qclt_not_eq _ _ H eq_refl). Qed.

Lemma Q2Qc_inject_Z_pos (z : Z) : 0 < z → (0 < Q2Qc (inject_Z z))%Qc.
Proof.
  intros Hz. unfold Qclt. cbn [this Q2Qc]. rewrite !Qred_correct.
  unfold Qlt. simpl. lia.
Qed.

Lemma Qc_div_gt_one p q : (0 < q)%Qc → (q < p)%Qc → (1 < p / q)%Qc.
Proof.
  intros Hq Hpq.
  pose proof (Qc_pos_ne_0 q Hq) as Hne.
  apply (Qcmult_lt_mono_pos_r _ _ q Hq).
  rewrite Qcmult_1_l.
  replace (p / q * q)%Qc with p by (field; exact Hne).
  exact Hpq.
Qed.

(** Beyond a positive divisor, the quotient exceeds one (and is truthy). *)
Lemma js_div_gt_one a b :
  js_lt (ofZ 0) b = true → js_lt b a = true →
  js_lt (ofZ 1) (js_div a b) = true ∧ ToBoolean (Num (js_div a b)) = true.
Proof.
  destruct b as [q| | |]; simpl; try discriminate.
  - intros Hq%bool_decide_eq_true. change (Q2Qc (inject_Z 0)) with 0%Qc in Hq.
    pose proof (Qc_pos_ne_0 q Hq) as Hne.
    destruct a as [p| | |]; simpl; try discriminate.
    + intros Hp%bool_decide_eq_true.
      rewrite (bool_decide_eq_false_2 _ Hne).
      pose proof (Qc_div_gt_one p q Hq Hp) as H1.
      split; simpl.
      * apply bool_decide_eq_true. exact H1.
      * apply negb_true_iff, bool_decide_eq_false.
        apply Qc_pos_ne_0. eapply Qclt_trans; [|exact H1]. reflexivity.
    + intros _. rewrite bool_decide_eq_false_2; [done|].
      intros Hlt. exact (Qclt_not_le _ _ Hq (Qclt_le_weak _ _ Hlt)).
  - destruct a; discriminate.
Qed.

Lemma number_strict_eq_true a b : number_strict_eq a b = true → a = b.
Proof.
  destruct a, b; simpl; try discriminate; try done.
  intros H. by apply bool_decide_eq_true in H.
Qed.

Lemma strict_neq_Num_ne a b : a ≠ b → strict_neq (Num a) (Num b) = true.
Proof.
  intros H. simpl. apply negb_true_iff. apply not_true_is_false.
  intros E. by apply number_strict_eq_true in E.
Qed.

End NumberFacts.

(** ** Objects: basic facts *)

Section Objects.

Implicit Types (o prev : obj) (k : string) (v : value).

Lemma get_singleton k v : get {[ k := v ]} k = v.
Proof. unfold get. by rewrite lookup_singleton_eq. Qed.

Lemma get_singleton_ne k k' v : k ≠ k' → get {[ k := v ]} k' = Undefined.
Proof. intros H. unfold get. by rewrite lookup_singleton_ne. Qed.

Lemma get_insert k v o : get (<[ k := v ]> o) k = v.
Proof. unfold get. by rewrite lookup_insert_eq. Qed.

Lemma get_insert_ne k k' v o : k ≠ k' → get (<[ k := v ]> o) k' = get o k'.
Proof. intros H. unfold get. by rewrite lookup_insert_ne. Qed.

(** Spreading two objects in turn is spreading their merge. *)
Lemma spread_spread prev o1 o2 :
  spread (spread prev o1) o2 = spread prev (spread o1 o2).
Proof. unfold spread. by rewrite (assoc_L (∪)). Qed.

Lemma spread_empty_l o : spread ∅ o = o.
Proof. unfold spread. by rewrite (right_id_L ∅ (∪)). Qed.

Lemma spread_empty_r o : spread o ∅ = o.
Proof. unfold spread. by rewrite (left_id_L ∅ (∪)). Qed.

End Objects.

(** ** Sequencing *)

Section Sequencing.

Context {A B : Type}.
Implicit Types (m : M A) (k : A → M B) (s : State).

Lemma stateAfter_bind m k s :
  stateAfter (m ≫= k) s = stateAfter (k (result m s)) (stateAfter m s).
Proof.
  unfold stateAfter, result, mbind, M_bind.
  destruct (m s) as [[a s1] out1]. cbn [fst snd].
  destruct (k a s1) as [[b s2] out2]. reflexivity.
Qed.

Lemma effects_bind m k s :
  effects (m ≫= k) s
  = effects m s ++ effects (k (result m s)) (stateAfter m s).
Proof.
  unfold effects, stateAfter, result, mbind, M_bind.
  destruct (m s) as [[a s1] out1]. cbn [fst snd].
  destruct (k a s1) as [[b s2] out2]. reflexivity.
Qed.

End Sequencing.

Lemma stateAfter_run_cons e events s :
  stateAfter (run (e :: events)) s = stateAfter (run events) (stateAfter (handle e) s).
Proof. cbn [run]. apply stateAfter_bind. Qed.

Lemma effects_run_cons e events s :
  effects (run (e :: events)) s
  = effects (handle e) s ++ effects (run events) (stateAfter (handle e) s).
Proof. cbn [run]. apply effects_bind. Qed.

Lemma stateAfter_run_app events more s :
  stateAfter (run (events ++ more)) s
  = stateAfter (run more) (stateAfter (run events) s).
Proof.
  revert s. induction events as [|e events IH]; intros s; [reflexivity|].
  rewrite <- app_comm_cons, !stateAfter_run_cons. apply IH.
Qed.

(** The cursor placement of the function body. *)
Lemma render_stateAfter focalPoint s :
  stateAfter (render focalPoint) s
  = match containerSize s with
    | Some sz =>
        stateAfter
          (onPan (Animated.setValueXY
                    (js_mul (ToNumber (get focalPoint "x")) (width sz))
                    (js_mul (ToNumber (get focalPoint "y")) (height sz)))) s
    | None => s
    end.
Proof. destruct s as [[sz|] ? ? ? ? ?]; reflexivity. Qed.

(** ** The updater of [setPosition] *)

Section SetPosition.

Variables (position : obj) (s : State).

Lemma setPosition_effects :
  ∃ u, effects (setPosition position) s = [onChange u]
       ∧ ∀ prev, u prev = spread prev (partialUpdate position).
Proof.
  eexists. split; [reflexivity|].
  intros prev. cbv beta. by rewrite spread_spread.
Qed.

Lemma setPosition_emitted :
  emitted (setPosition position) s = [partialUpdate position].
Proof.
  run_handler. by rewrite spread_spread, spread_empty_l.
Qed.

Lemma partialUpdate_x :
  partialUpdate position !! "x" =
  if ToBoolean (get position "x") then Some (get position "x") else None.
Proof.
  unfold partialUpdate, spread.
  destruct (ToBoolean (get position "x")), (ToBoolean (get position "y"));
    by simplify_map_eq.
Qed.

Lemma partialUpdate_y :
  partialUpdate position !! "y" =
  if ToBoolean (get position "y") then Some (get position "y") else None.
Proof.
  unfold partialUpdate, spread.
  destruct (ToBoolean (get position "x")), (ToBoolean (get position "y"));
    by simplify_map_eq.
Qed.

Lemma partialUpdate_other k :
  k ≠ "x" → k ≠ "y" → partialUpdate position !! k = None.
Proof.
  intros Hx Hy. unfold partialUpdate, spread.
  destruct (ToBoolean (get position "x")), (ToBoolean (get position "y")).
  all: rewrite lookup_union_None; split; try apply lookup_empty.
  all: by apply lookup_singleton_ne.
Qed.

End SetPosition.

Section Release.

Variables (s : State) (x y : number).

Lemma release_effects :
  ∃ u, effects (onPanResponderRelease x y) s
       = [shouldEnableBottomSheetScroll true; onChange u]
       ∧ ∀ prev, u prev = spread prev (partialUpdate (releasePosition s x y)).
Proof.
  eexists. split; [reflexivity|].
  intros prev. cbv beta. by rewrite spread_spread.
Qed.

Lemma release_emitted :
  emitted (onPanResponderRelease x y) s = [partialUpdate (releasePosition s x y)].
Proof. run_handler. by rewrite spread_spread, spread_empty_l. Qed.

Lemma release_get_x :
  get (releasePosition s x y) "x" = Num (js_div x (ToNumber (optWidth (containerSize s)))).
Proof. apply get_insert. Qed.

Lemma release_get_y :
  get (releasePosition s x y) "y" = Num (js_div y (ToNumber (optHeight (containerSize s)))).
Proof. unfold releasePosition. rewrite get_insert_ne by done. apply get_singleton. Qed.

End Release.

Section Sliders.

Variable s : State.

Lemma onChangeX_emitted x :
  emitted (onChangeX x) s
  = [partialUpdate {[ "x" := Num (js_div x (ofZ 100)) ]}].
Proof. apply setPosition_emitted. Qed.

Lemma onChangeY_emitted y :
  emitted (onChangeY y) s
  = [partialUpdate {[ "y" := Num (js_div y (ofZ 100)) ]}].
Proof. apply setPosition_emitted. Qed.

Lemma partialUpdate_only_x v :
  partialUpdate {[ "x" := v ]} = if ToBoolean v then {[ "x" := v ]} else ∅.
Proof.
  unfold partialUpdate.
  rewrite get_singleton, get_singleton_ne by done. simpl.
  apply spread_empty_r.
Qed.

Lemma partialUpdate_only_y v :
  partialUpdate {[ "y" := v ]} = if ToBoolean v then {[ "y" := v ]} else ∅.
Proof.
  unfold partialUpdate.
  rewrite get_singleton, get_singleton_ne by done. simpl.
  apply spread_empty_l.
Qed.

(** A percentage other than zero reaches [onChange] as a fraction. *)
Lemma percent_truthy (p : Z) :
  1 ≤ p ≤ 100 → ToBoolean (Num (js_div (ofZ p) (ofZ 100))) = true.
Proof.
  intros Hp. unfold ofZ, js_div.
  rewrite bool_decide_eq_false_2 by (intros [=]).
  simpl. apply negb_true_iff, bool_decide_eq_false.
  apply Qc_pos_ne_0, Qcmult_pos_pos.
  - apply Q2Qc_inject_Z_pos. lia.
  - reflexivity.
Qed.

Lemma slider_percent_emitted (p : Z) :
  1 ≤ p ≤ 100 →
  emitted (onChangeX (ofZ p)) s = [ {[ "x" := Num (js_div (ofZ p) (ofZ 100)) ]} ]
  ∧ emitted (onChangeY (ofZ p)) s = [ {[ "y" := Num (js_div (ofZ p) (ofZ 100)) ]} ].
Proof.
  intros Hp. rewrite onChangeX_emitted, onChangeY_emitted.
  rewrite partialUpdate_only_x, partialUpdate_only_y.
  by rewrite percent_truthy.
Qed.

End Sliders.

(** Every key a partial update carries has a truthy value. *)
Lemma partialUpdate_truthy position k v :
  partialUpdate position !! k = Some v → ToBoolean v = true.
Proof.
  destruct (decide (k = "x")) as [->|Hx]; [|destruct (decide (k = "y")) as [->|Hy]].
  - rewrite partialUpdate_x. destruct (ToBoolean (get position "x")) eqn:E; congruence.
  - rewrite partialUpdate_y. destruct (ToBoolean (get position "y")) eqn:E; congruence.
  - by rewrite partialUpdate_other.
Qed.

(** Whatever the event, an updater handed to [onChange] merges a partial
    update of [setPosition] onto the previous focal point. *)
Lemma handle_changes e s u :
  u ∈ changes (effects (handle e) s) →
  ∃ position, ∀ prev, u prev = spread prev (partialUpdate position).
Proof.
  destruct e as [fp|w h|x y|dx dy|x y|x|y| |h w].
  - run_handler. destruct (containerSize s); cbn; by intros ?%elem_of_nil.
  - run_handler.
    destruct (_ && _); cbn; by intros ?%elem_of_nil.
  - cbn. by intros ?%elem_of_nil.
  - cbn. by intros ?%elem_of_nil.
  - destruct (release_effects s x y) as (u' & E & Hu').
    cbn [handle]. rewrite E. cbn. intros ->%list_elem_of_singleton. eauto.
  - destruct (setPosition_effects {[ "x" := Num (js_div x (ofZ 100)) ]} s) as (u' & E & Hu').
    cbn [handle]. unfold onChangeX. rewrite E. cbn. intros ->%list_elem_of_singleton. eauto.
  - destruct (setPosition_effects {[ "y" := Num (js_div y (ofZ 100)) ]} s) as (u' & E & Hu').
    cbn [handle]. unfold onChangeY. rewrite E. cbn. intros ->%list_elem_of_singleton. eauto.
  - cbn. by intros ?%elem_of_nil.
  - cbn. by intros ?%elem_of_nil.
Qed.

(** ** Emitting focal point updates *)

(** C1 (at the failing input): when a slider reports 0 percent, on either
    axis and in any state, [onChange] receives an updater that returns the
    previous focal point as it is: its partial update is empty, and not the
    expected object holding that axis with the value 0 / 100. *)
Theorem slider_zero_emits_no_axis (s : State) :
  (∃ u, effects (onChangeX (ofZ 0)) s = [onChange u] ∧ ∀ prev, u prev = prev)
  ∧ (∃ u, effects (onChangeY (ofZ 0)) s = [onChange u] ∧ ∀ prev, u prev = prev)
  ∧ emitted (onChangeX (ofZ 0)) s = [∅]
  ∧ emitted (onChangeY (ofZ 0)) s = [∅]
  ∧ emitted (onChangeX (ofZ 0)) s
    ≠ [ {[ "x" := Num (js_div (ofZ 0) (ofZ 100)) ]} ]
  ∧ emitted (onChangeY (ofZ 0)) s
    ≠ [ {[ "y" := Num (js_div (ofZ 0) (ofZ 100)) ]} ].
Proof.
  split; [|split].
  - destruct (setPosition_effects {[ "x" := Num (js_div (ofZ 0) (ofZ 100)) ]} s)
      as (u & E & Hu).
    exists u. split; [exact E|]. intros prev.
    rewrite Hu, partialUpdate_only_x, js_div_zero_l_falsy. apply spread_empty_r.
  - destruct (setPosition_effects {[ "y" := Num (js_div (ofZ 0) (ofZ 100)) ]} s)
      as (u & E & Hu).
    exists u. split; [exact E|]. intros prev.
    rewrite Hu, partialUpdate_only_y, js_div_zero_l_falsy. apply spread_empty_r.
  - rewrite onChangeX_emitted, onChangeY_emitted.
    rewrite partialUpdate_only_x, partialUpdate_only_y.
    rewrite js_div_zero_l_falsy.
    repeat split; intros [= E]; by apply (f_equal (λ m : obj, size m)) in E.
Qed.

(** C2: with a stored container of positive width, a release whose x lies
    strictly beyond the width hands [onChange] an updater that sets x, on
    every previous focal point, to a value strictly greater than 1; likewise
    for the height and y.  Nothing clamps the value on the way. *)
Theorem release_emits_unclamped (s : State) (sz : Size) (x y : number) :
  containerSize s = Some sz →
  ∃ u, effects (onPanResponderRelease x y) s
       = [shouldEnableBottomSheetScroll true; onChange u]
       ∧ (js_lt (ofZ 0) (width sz) = true → js_lt (width sz) x = true →
          ∃ v, (∀ prev, u prev !! "x" = Some (Num v))
               ∧ js_lt (ofZ 1) v = true)
       ∧ (js_lt (ofZ 0) (height sz) = true → js_lt (height sz) y = true →
          ∃ v, (∀ prev, u prev !! "y" = Some (Num v))
               ∧ js_lt (ofZ 1) v = true).
Proof.
  intros Hsz. destruct (release_effects s x y) as (u & E & Hu).
  exists u. split; [exact E|].
  split; intros H0 Hlt; destruct (js_div_gt_one _ _ H0 Hlt) as [Hgt Htrue];
    eexists; (split; [|exact Hgt]); intros prev;
    rewrite Hu; unfold spread; apply lookup_union_Some_l.
  - rewrite partialUpdate_x, release_get_x, Hsz.
    cbn [optWidth optChain ToNumber]. by rewrite Htrue.
  - rewrite partialUpdate_y, release_get_y, Hsz.
    cbn [optHeight optChain ToNumber]. by rewrite Htrue.
Qed.

Lemma release_emits_unclamped_witness :
  ∃ u, effects (onPanResponderRelease (ofZ 300) (ofZ 150))
         (stateAfter (onLayout (ofZ 200) (ofZ 100)) initialState)
       = [shouldEnableBottomSheetScroll true; onChange u]
       ∧ (∃ v, (∀ prev, u prev !! "x" = Some (Num v)) ∧ js_lt (ofZ 1) v = true)
       ∧ (∃ v, (∀ prev, u prev !! "y" = Some (Num v)) ∧ js_lt (ofZ 1) v = true).
Proof.
  destruct (release_emits_unclamped
              (stateAfter (onLayout (ofZ 200) (ofZ 100)) initialState)
              (mkSize (ofZ 200) (ofZ 100)) (ofZ 300) (ofZ 150) eq_refl)
    as (u & Hu & Hx & Hy).
  exists u. split; [exact Hu|].
  split; [apply Hx | apply Hy]; reflexivity.
Defined.

(** C3: with the container measured 200 by 100 and the focal point
    (0.5, 0.25), a render places the cursor at (100, 25), and a release at
    (100, 25) hands [onChange] the update carrying x = 0.5 and y = 0.25. *)
Theorem roundtrip_200_100 (s : State) :
  containerSize s = Some (mkSize (ofZ 200) (ofZ 100)) →
  let focalPoint : obj := {[ "x" := Num (ofQ (1 # 2)); "y" := Num (ofQ (1 # 4)) ]} in
  let s' := stateAfter (render focalPoint) s in
  (Animated._value (Animated.x (pan s')), Animated._value (Animated.y (pan s')))
  = (ofZ 100, ofZ 25)
  ∧ (Animated.getOffsetXY (pan s) = (ofZ 0, ofZ 0) →
     Animated.getValueXY (pan s') = (ofZ 100, ofZ 25))
  ∧ emitted (onPanResponderRelease (ofZ 100) (ofZ 25)) s' = [focalPoint].
Proof.
  intros Hsz focalPoint s'.
  assert (Es' : s' = stateAfter (onPan (Animated.setValueXY (ofZ 100) (ofZ 25))) s).
  { subst s'. rewrite render_stateAfter, Hsz. unfold stateAfter, onPan, modify.
    cbn [fst snd]. do 2 f_equal; compute_done. }
  assert (Hs' : containerSize s' = containerSize s) by (by rewrite Es').
  assert (Hx : Animated._value (Animated.x (pan s')) = ofZ 100) by (by rewrite Es').
  assert (Hy : Animated._value (Animated.y (pan s')) = ofZ 25) by (by rewrite Es').
  assert (Ho : Animated.getOffsetXY (pan s') = Animated.getOffsetXY (pan s))
    by (by rewrite Es').
  split; [by rewrite Hx, Hy|]. split.
  - intros H0. unfold Animated.getOffsetXY in Ho, H0. rewrite H0 in Ho.
    injection Ho as Hox Hoy.
    unfold Animated.getValueXY, Animated.getValue.
    rewrite Hx, Hy, Hox, Hoy. compute_done.
  - rewrite release_emitted. unfold partialUpdate.
    rewrite release_get_x, release_get_y, Hs', Hsz. compute_done.
Qed.

Lemma roundtrip_200_100_witness :
  let s := stateAfter (onLayout (ofZ 200) (ofZ 100)) initialState in
  let focalPoint : obj := {[ "x" := Num (ofQ (1 # 2)); "y" := Num (ofQ (1 # 4)) ]} in
  Animated.getValueXY (pan (stateAfter (render focalPoint) s)) = (ofZ 100, ofZ 25)
  ∧ emitted (onPanResponderRelease (ofZ 100) (ofZ 25))
      (stateAfter (render focalPoint) s) = [focalPoint].
Proof.
  intros s focalPoint.
  destruct (roundtrip_200_100 s eq_refl) as (_ & Hpos & Hemit).
  split; [apply Hpos; reflexivity | exact Hemit].
Defined.

(** C4: while the container is unmeasured, a release at any coordinates hands
    [onChange] an update with neither an x nor a y key: the updater returns
    the previous focal point unchanged. *)
Theorem release_unmeasured_emits_no_axis (s : State) (x y : number) :
  containerSize s = None →
  emitted (onPanResponderRelease x y) s = [∅]
  ∧ ∃ u, effects (onPanResponderRelease x y) s
         = [shouldEnableBottomSheetScroll true; onChange u]
         ∧ (∀ prev, u prev = prev)
         ∧ u ∅ !! "x" = None ∧ u ∅ !! "y" = None.
Proof.
  intros Hsz.
  assert (Hp : partialUpdate (releasePosition s x y) = ∅).
  { unfold partialUpdate. rewrite release_get_x, release_get_y, Hsz.
    cbn [optWidth optHeight optChain ToNumber]. rewrite !js_div_NaN_r.
    cbn. apply spread_empty_l. }
  split; [by rewrite release_emitted, Hp|].
  destruct (release_effects s x y) as (u & E & Hu).
  exists u. split; [exact E|].
  assert (Hid : ∀ prev, u prev = prev).
  { intros prev. rewrite Hu, Hp. apply spread_empty_r. }
  split; [exact Hid|]. by rewrite Hid.
Qed.

Lemma release_unmeasured_emits_no_axis_witness :
  emitted (onPanResponderRelease (ofZ 50) (ofZ 50)) initialState = [∅].
Proof.
  exact (proj1 (release_unmeasured_emits_no_axis initialState (ofZ 50) (ofZ 50) eq_refl)).
Defined.

(** C10: the presence test of [setPosition] is truthiness, which fails for
    exactly 0 and NaN among numbers.  An axis whose computed value is 0 or NaN
    is left out of the partial update; a slider
    reporting 0 and a release at pixel 0 on an axis therefore emit no key for
    that axis; and no updater handed to [onChange], by any handler, gives a
    key a falsy value (0 included) that it did not already have. *)
Theorem falsy_axis_is_omitted (s : State) :
  (∀ a : number, ToBoolean (Num a) = false ↔ a = ofZ 0 ∨ a = NaN)
  ∧ (∀ position : obj,
     emitted (setPosition position) s = [partialUpdate position]
     ∧ (ToBoolean (get position "x") = false → partialUpdate position !! "x" = None)
     ∧ (ToBoolean (get position "y") = false → partialUpdate position !! "y" = None))
  ∧ emitted (onChangeX (ofZ 0)) s = [∅]
  ∧ emitted (onChangeY (ofZ 0)) s = [∅]
  ∧ (∀ y, ∃ u, emitted (onPanResponderRelease (ofZ 0) y) s = [u] ∧ u !! "x" = None)
  ∧ (∀ x, ∃ u, emitted (onPanResponderRelease x (ofZ 0)) s = [u] ∧ u !! "y" = None)
  ∧ (∀ e u prev k v,
       u ∈ changes (effects (handle e) s) →
       ToBoolean v = false →
       u prev !! k = Some v → prev !! k = Some v).
Proof.
  split; [|split; [|split; [|split; [|split; [|split]]]]].
  - apply ToBoolean_false_Num.
  - intros position. split; [apply setPosition_emitted|].
    rewrite partialUpdate_x, partialUpdate_y. by split; intros ->.
  - by rewrite onChangeX_emitted, partialUpdate_only_x, js_div_zero_l_falsy.
  - by rewrite onChangeY_emitted, partialUpdate_only_y, js_div_zero_l_falsy.
  - intros y. eexists. split; [apply release_emitted|].
    by rewrite partialUpdate_x, release_get_x, js_div_zero_l_falsy.
  - intros x. eexists. split; [apply release_emitted|].
    by rewrite partialUpdate_y, release_get_y, js_div_zero_l_falsy.
  - intros e u prev k v Hu Hv Hk.
    destruct (handle_changes e s u Hu) as (position & Hspread).
    rewrite Hspread in Hk. unfold spread in Hk.
    apply lookup_union_Some_raw in Hk as [Hk|[_ Hk]]; [|exact Hk].
    apply partialUpdate_truthy in Hk. congruence.
Qed.

(** ** Layout measurement *)

Lemma onLayout_stateAfter w h s :
  stateAfter (onLayout w h) s
  = if layoutGuard (containerSize s) w h
    then stateAfter (setContainerSize (Some (mkSize w h))) s
    else s.
Proof.
  unfold layoutGuard. run_handler.
  by destruct (_ && _).
Qed.

Lemma onLayout_effects w h s : effects (onLayout w h) s = [].
Proof. run_handler. by destruct (_ && _). Qed.

Lemma setContainerSize_same c s :
  containerSize s = c → stateAfter (setContainerSize c) s = s.
Proof. intros <-. by destruct s. Qed.

Lemma layoutGuard_true_iff stored w h :
  layoutGuard stored w h = true ∧ stored ≠ Some (mkSize w h)
  ↔ w ≠ ofZ 0 ∧ h ≠ ofZ 0 ∧ stored ≠ Some (mkSize w h).
Proof.
  unfold layoutGuard. split.
  - intros [[[Hw Hh]%andb_true_iff _]%andb_true_iff Hne].
    repeat split; [intros -> | intros -> | exact Hne]; discriminate.
  - intros (Hw & Hh & Hne). split; [|exact Hne].
    rewrite !strict_neq_Num_ne by done. cbn [andb].
    destruct stored as [[w' h']|]; [|reflexivity].
    cbn [optWidth optHeight optChain width height].
    destruct (decide (w' = w)) as [->|Hw']; [|by rewrite strict_neq_Num_ne].
    destruct (decide (h' = h)) as [->|Hh']; [done|].
    rewrite (strict_neq_Num_ne h' h) by done. apply orb_true_r.
Qed.

Lemma onLayout_idempotent w h s :
  stateAfter (onLayout w h) (stateAfter (onLayout w h) s)
  = stateAfter (onLayout w h) s.
Proof.
  rewrite (onLayout_stateAfter w h s).
  destruct (layoutGuard (containerSize s) w h) eqn:Hg.
  - rewrite onLayout_stateAfter.
    destruct (layoutGuard (containerSize (stateAfter _ _)) w h); [|reflexivity].
    by apply setContainerSize_same.
  - by rewrite onLayout_stateAfter, Hg.
Qed.

Lemma onLayout_repeated w h (n : nat) s :
  stateAfter (run (replicate (S n) (Layout w h))) s
  = stateAfter (onLayout w h) s.
Proof.
  revert s. induction n as [|n IH]; intros s.
  { change (replicate 1 (Layout w h)) with [Layout w h].
    by rewrite stateAfter_run_cons. }
  change (replicate (S (S n)) (Layout w h))
    with (Layout w h :: replicate (S n) (Layout w h)).
  rewrite stateAfter_run_cons, IH. apply onLayout_idempotent.
Qed.

(** C5: [onLayout] changes the stored size exactly when both dimensions are
    non-zero and the pair differs from the stored one, and then stores that
    pair, touching nothing else and calling no callback; a measurement that is
    repeated any number of times acts as it does once; a zero width or a zero
    height changes nothing. *)
Theorem onLayout_updates_iff (s : State) (w h : number) :
  (containerSize (stateAfter (onLayout w h) s) ≠ containerSize s
   ↔ w ≠ ofZ 0 ∧ h ≠ ofZ 0 ∧ containerSize s ≠ Some (mkSize w h))
  ∧ (stateAfter (onLayout w h) s = s
     ∨ stateAfter (onLayout w h) s
       = stateAfter (setContainerSize (Some (mkSize w h))) s)
  ∧ effects (onLayout w h) s = []
  ∧ (∀ n : nat,
       stateAfter (run (replicate (S n) (Layout w h))) s
       = stateAfter (onLayout w h) s)
  ∧ stateAfter (onLayout (ofZ 0) h) s = s
  ∧ stateAfter (onLayout w (ofZ 0)) s = s.
Proof.
  split; [|split; [|split; [|split; [|split]]]].
  - rewrite <- layoutGuard_true_iff, onLayout_stateAfter.
    destruct (layoutGuard (containerSize s) w h).
    + change (containerSize (stateAfter (setContainerSize ?c) s)) with c.
      split; [intros H; split; [done|congruence] | intros [_ H]; congruence].
    + split; [done | intros [? _]; done].
  - rewrite onLayout_stateAfter. destruct (layoutGuard _ _ _); auto.
  - apply onLayout_effects.
  - intros n. apply onLayout_repeated.
  - rewrite onLayout_stateAfter. by destruct h.
  - rewrite onLayout_stateAfter. unfold layoutGuard.
    destruct (strict_neq (Num w) _); reflexivity.
Qed.

(** ** The slider key *)

Lemma handle_sliderKey e s :
  sliderKey (stateAfter (handle e) s)
  = sliderKey s + (if isRelease e then 1 else 0).
Proof.
  destruct e as [fp|w h|x y|dx dy|x y|x|y| |h w]; cbn [handle isRelease];
    rewrite ?Z.add_0_r; try reflexivity.
  - rewrite stateAfter_bind. change (stateAfter (mret tt) ?t) with t.
    rewrite render_stateAfter. by destruct (containerSize s).
  - rewrite onLayout_stateAfter. by destruct (layoutGuard _ _ _).
Qed.

Lemma run_sliderKey events s :
  sliderKey (stateAfter (run events) s) = sliderKey s + releases events.
Proof.
  revert s. unfold releases.
  induction events as [|e events IH]; intros s.
  - cbn. lia.
  - rewrite stateAfter_run_cons, IH, handle_sliderKey.
    cbn [List.filter]. destruct (isRelease e); cbn [length]; lia.
Qed.

Lemma releases_nonneg events : 0 ≤ releases events.
Proof. unfold releases. lia. Qed.

(** C6: the slider key starts at 0; every release adds exactly 1, whatever
    the state; no other handler changes it; after any trace from the mount it
    is the number of releases in the trace, so it is never reset and never
    decreases as a trace is extended. *)
Theorem sliderKey_counts_releases :
  sliderKey initialState = 0
  ∧ (∀ s x y,
       sliderKey (stateAfter (onPanResponderRelease x y) s) = sliderKey s + 1)
  ∧ (∀ s v,
       sliderKey (stateAfter (onChangeX v) s) = sliderKey s
       ∧ sliderKey (stateAfter (onChangeY v) s) = sliderKey s)
  ∧ (∀ s e,
       sliderKey (stateAfter (handle e) s)
       = sliderKey s + (if isRelease e then 1 else 0))
  ∧ (∀ events,
       sliderKey (stateAfter (run events) initialState) = releases events)
  ∧ (∀ events more s,
       sliderKey (stateAfter (run events) s)
       ≤ sliderKey (stateAfter (run (events ++ more)) s)).
Proof.
  split; [reflexivity|]. split; [reflexivity|]. split; [by split|].
  split; [intros s e; apply handle_sliderKey|]. split.
  - intros events. by rewrite run_sliderKey.
  - intros events more s.
    rewrite stateAfter_run_app, (run_sliderKey more).
    pose proof (releases_nonneg more). lia.
Qed.

(** ** The slider display *)

Lemma render_result focalPoint s :
  result (render focalPoint) s
  = (mkRangeControlProps ("xAxis-", sliderKey s)
       MAX_POSITION_VALUE MIN_POSITION_VALUE
       (Math_round (js_mul (ToNumber (get focalPoint "x")) (ofZ 100))),
     mkRangeControlProps ("yAxis-", sliderKey s)
       MAX_POSITION_VALUE MIN_POSITION_VALUE
       (Math_round (js_mul (ToNumber (get focalPoint "y")) (ofZ 100)))).
Proof. destruct s as [[sz|] ? ? ? ? ?]; reflexivity. Qed.

#[local] Set Warnings "-inexact-float".



(** ** The drag gesture *)

Section Gesture.

Variable s : State.

(** After a grant both the value and the offset hold the touch origin. *)
Lemma grant_pan x y :
  pan (stateAfter (onPanResponderGrant x y) s)
  = Animated.mkValueXY (Animated.mkValue x x) (Animated.mkValue y y).
Proof. reflexivity. Qed.

(** A move replaces the value and keeps the offset. *)
Lemma move_pan dx dy :
  pan (stateAfter (onPanResponderMove dx dy) s)
  = Animated.mkValueXY
      (Animated.mkValue dx (Animated._offset (Animated.x (pan s))))
      (Animated.mkValue dy (Animated._offset (Animated.y (pan s)))).
Proof. reflexivity. Qed.

Lemma move_effects dx dy : effects (onPanResponderMove dx dy) s = [].
Proof. reflexivity. Qed.

Lemma move_offset dx dy :
  Animated.getOffsetXY (pan (stateAfter (onPanResponderMove dx dy) s))
  = Animated.getOffsetXY (pan s).
Proof. reflexivity. Qed.

End Gesture.

Lemma moves_offset deltas s :
  Animated.getOffsetXY (pan (stateAfter (run (moves deltas)) s))
  = Animated.getOffsetXY (pan s).
Proof.
  revert s. induction deltas as [|d deltas IH]; intros s; [reflexivity|].
  cbn [moves map]. rewrite stateAfter_run_cons. fold (moves deltas).
  rewrite IH. apply move_offset.
Qed.

Lemma moves_effects deltas s : effects (run (moves deltas)) s = [].
Proof.
  revert s. induction deltas as [|d deltas IH]; intros s; [reflexivity|].
  cbn [moves map]. rewrite effects_run_cons. fold (moves deltas).
  rewrite IH. reflexivity.
Qed.

Lemma stateAfter_moves_snoc deltas dx dy s :
  stateAfter (run (moves (deltas ++ [(dx, dy)]))) s
  = stateAfter (onPanResponderMove dx dy) (stateAfter (run (moves deltas)) s).
Proof.
  unfold moves. rewrite map_app, stateAfter_run_app. cbn [map fst snd].
  by rewrite stateAfter_run_cons.
Qed.



(** C9: during a gesture, after a grant at (x, y) and any number of moves the
    last of which reports (dx, dy), the animated value plus offset is the
    baseline (x, y) plus (dx, dy), the baseline is still (x, y), and the moves
    call no callback; a grant at (10, 10) followed by a move of (20, -5)
    gives (30, 5). *)
Theorem move_tracks_baseline_plus_delta (s : State) (x y dx dy : number)
    (earlier : list (number * number)) :
  let granted := stateAfter (onPanResponderGrant x y) s in
  let moved := stateAfter (run (moves (earlier ++ [(dx, dy)]))) granted in
  Animated.getOffsetXY (pan granted) = (x, y)
  ∧ Animated.getOffsetXY (pan moved) = (x, y)
  ∧ Animated.getValueXY (pan moved) = (js_add x dx, js_add y dy)
  ∧ effects (run (moves (earlier ++ [(dx, dy)]))) granted = []
  ∧ Animated.getValueXY
      (pan (stateAfter (run [Grant (ofZ 10) (ofZ 10); Move (ofZ 20) (ofZ (-5))]) s))
    = (ofZ 30, ofZ 5).
Proof.
  intros granted moved.
  assert (Hg : Animated.getOffsetXY (pan granted) = (x, y)) by reflexivity.
  assert (Hm : Animated.getOffsetXY (pan moved) = (x, y)).
  { subst moved. by rewrite moves_offset. }
  split; [exact Hg|]. split; [exact Hm|]. split; [|split].
  - subst moved. rewrite stateAfter_moves_snoc, move_pan.
    pose proof (moves_offset earlier granted) as Ho. rewrite Hg in Ho.
    unfold Animated.getOffsetXY in Ho. injection Ho as -> ->.
    unfold Animated.getValueXY, Animated.getValue. cbn.
    by rewrite (js_add_comm dx x), (js_add_comm dy y).
  - apply moves_effects.
  - rewrite !stateAfter_run_cons. cbn [handle run].
    change (stateAfter (mret tt) ?t) with t.
    rewrite move_pan, grant_pan. compute_done.
Qed.

(** ** Traces: more facts *)

Lemma effects_run_app events more s :
  effects (run (events ++ more)) s
  = effects (run events) s ++ effects (run more) (stateAfter (run events) s).
Proof.
  revert s. induction events as [|e events IH]; intros s; [reflexivity|].
  rewrite <- app_comm_cons, !effects_run_cons, stateAfter_run_cons, IH.
  by rewrite (assoc_L (++)).
Qed.

Lemma stateAfter_handle_Render focalPoint s :
  stateAfter (handle (Render focalPoint)) s = stateAfter (render focalPoint) s.
Proof. cbn [handle]. by rewrite stateAfter_bind. Qed.

Lemma render_effects focalPoint s : effects (render focalPoint) s = [].
Proof. destruct s as [[sz|] ? ? ? ? ?]; reflexivity. Qed.

Lemma effects_handle_Render focalPoint s :
  effects (handle (Render focalPoint)) s = [].
Proof. cbn [handle]. by rewrite effects_bind, render_effects. Qed.

(** ** The stored size over a trace *)

Lemma layoutGuard_false_stored stored w h :
  w ≠ ofZ 0 → h ≠ ofZ 0 →
  layoutGuard stored w h = false → stored = Some (mkSize w h).
Proof.
  intros Hw Hh. unfold layoutGuard.
  rewrite !strict_neq_Num_ne by done. cbn [andb].
  destruct stored as [[w' h']|]; [|discriminate].
  cbn [optWidth optHeight optChain width height].
  intros [Ew Eh]%orb_false_iff. simpl in Ew, Eh.
  apply negb_false_iff, number_strict_eq_true in Ew.
  apply negb_false_iff, number_strict_eq_true in Eh.
  by subst.
Qed.

Lemma layoutGuard_zero stored w h :
  ¬ (w ≠ ofZ 0 ∧ h ≠ ofZ 0) → layoutGuard stored w h = false.
Proof.
  intros Hn. unfold layoutGuard.
  destruct (decide (w = ofZ 0)) as [->|Hw]; [reflexivity|].
  destruct (decide (h = ofZ 0)) as [->|Hh]; [|tauto].
  by rewrite andb_false_r.
Qed.

Lemma onLayout_containerSize w h s :
  containerSize (stateAfter (onLayout w h) s)
  = if bool_decide (w ≠ ofZ 0 ∧ h ≠ ofZ 0)
    then Some (mkSize w h) else containerSize s.
Proof.
  rewrite onLayout_stateAfter. case_bool_decide as Hnz.
  - destruct (layoutGuard (containerSize s) w h) eqn:Hg; [reflexivity|].
    destruct Hnz. by apply layoutGuard_false_stored.
  - by rewrite layoutGuard_zero.
Qed.

Lemma handle_containerSize e s :
  containerSize (stateAfter (handle e) s)
  = match e with
    | Layout w h =>
        if bool_decide (w ≠ ofZ 0 ∧ h ≠ ofZ 0)
        then Some (mkSize w h) else containerSize s
    | _ => containerSize s
    end.
Proof.
  destruct e as [fp|w h|x y|dx dy|x y|x|y| |h w]; try reflexivity.
  - rewrite stateAfter_handle_Render, render_stateAfter.
    destruct (containerSize s) eqn:E; exact E.
  - apply onLayout_containerSize.
Qed.

Lemma run_containerSize events s :
  containerSize (stateAfter (run events) s) = measured events (containerSize s).
Proof.
  revert s. induction events as [|e events IH]; intros s; [reflexivity|].
  rewrite stateAfter_run_cons, IH, handle_containerSize.
  by destruct e.
Qed.

Lemma measured_nonzero events stored :
  (∀ sz, stored = Some sz → width sz ≠ ofZ 0 ∧ height sz ≠ ofZ 0) →
  ∀ sz, measured events stored = Some sz →
        width sz ≠ ofZ 0 ∧ height sz ≠ ofZ 0.
Proof.
  revert stored. induction events as [|e events IH]; intros stored Hst; [exact Hst|].
  destruct e as [fp|w h|x y|dx dy|x y|x|y| |h w]; cbn [measured]; try by apply IH.
  apply IH. case_bool_decide as Hnz; [|exact Hst].
  by intros sz [= <-].
Qed.

Lemma measured_None events stored :
  measured events stored = None →
  stored = None
  ∧ Forall (λ e, match e with
                 | Layout w h => w = ofZ 0 ∨ h = ofZ 0
                 | _ => True
                 end) events.
Proof.
  revert stored. induction events as [|e events IH]; intros stored H.
  { by split. }
  destruct e as [fp|w h|x y|dx dy|x y|x|y| |h w]; cbn [measured] in H;
    try (destruct (IH _ H) as [-> HF]; split; [done|by constructor]).
  destruct (IH _ H) as [Hst HF]. case_bool_decide as Hnz; [done|].
  split; [exact Hst|]. constructor; [|exact HF].
  destruct (decide (w = ofZ 0)); [by left|].
  destruct (decide (h = ofZ 0)); [by right|]. tauto.
Qed.

Lemma stored_size_nonzero events sz :
  containerSize (stateAfter (run events) initialState) = Some sz →
  width sz ≠ ofZ 0 ∧ height sz ≠ ofZ 0.
Proof.
  rewrite run_containerSize. by apply measured_nonzero.
Qed.

(** X1: over any trace the stored container size is that of the last
    measurement with two non-zero dimensions: the comparison with the stored
    size in [onLayout] never changes the outcome, and no other handler touches
    the size.  From the mount on, a stored size never has a zero dimension,
    and the size is unset exactly while every measurement had one. *)
Theorem stored_size_is_last_nonzero_measurement (events : list Event) (s : State) :
  containerSize (stateAfter (run events) s) = measured events (containerSize s)
  ∧ match containerSize (stateAfter (run events) initialState) with
    | Some sz => width sz ≠ ofZ 0 ∧ height sz ≠ ofZ 0
    | None =>
        Forall (λ e, match e with
                     | Layout w h => w = ofZ 0 ∨ h = ofZ 0
                     | _ => True
                     end) events
    end.
Proof.
  split; [apply run_containerSize|].
  destruct (containerSize (stateAfter (run events) initialState)) as [sz|] eqn:E.
  - by apply (stored_size_nonzero events).
  - rewrite run_containerSize in E. by apply measured_None in E as [_ HF].
Qed.

(** ** Updaters: more facts *)

Lemma js_div_Finite (p q : Qc) :
  q ≠ 0%Qc → js_div (Finite p) (Finite q) = Finite (p / q).
Proof. intros H. unfold js_div. by rewrite bool_decide_eq_false_2. Qed.

Lemma handle_changes_Forall e s :
  Forall (λ u : obj → obj,
            ∃ position, ∀ prev, u prev = spread prev (partialUpdate position))
         (changes (effects (handle e) s)).
Proof. apply Forall_forall. intros u. apply handle_changes. Qed.

Lemma slider_changes_x x s :
  ∃ u, changes (effects (handle (SliderX x)) s) = [u]
       ∧ ∀ prev, u prev
                 = spread prev (partialUpdate {[ "x" := Num (js_div x (ofZ 100)) ]}).
Proof.
  destruct (setPosition_effects {[ "x" := Num (js_div x (ofZ 100)) ]} s)
    as (u & E & Hu).
  exists u. split; [|exact Hu]. cbn [handle]. unfold onChangeX. by rewrite E.
Qed.

Lemma slider_changes_y y s :
  ∃ u, changes (effects (handle (SliderY y)) s) = [u]
       ∧ ∀ prev, u prev
                 = spread prev (partialUpdate {[ "y" := Num (js_div y (ofZ 100)) ]}).
Proof.
  destruct (setPosition_effects {[ "y" := Num (js_div y (ofZ 100)) ]} s)
    as (u & E & Hu).
  exists u. split; [|exact Hu]. cbn [handle]. unfold onChangeY. by rewrite E.
Qed.

(** X4: whatever the event and the state, an updater handed to [onChange]
    leaves every key other than x and y as it was, removes no key, and
    applying it twice is applying it once; the updater of the x slider leaves
    y as it was, and that of the y slider leaves x. *)
Theorem updater_touches_only_its_axes (e : Event) (s : State) :
  Forall (λ u : obj → obj,
            (∀ prev k, k ≠ "x" → k ≠ "y" → u prev !! k = prev !! k)
            ∧ (∀ prev k, is_Some (prev !! k) → is_Some (u prev !! k))
            ∧ (∀ prev, u (u prev) = u prev))
         (changes (effects (handle e) s))
  ∧ (∀ x, ∃ u, changes (effects (handle (SliderX x)) s) = [u]
               ∧ ∀ prev, u prev !! "y" = prev !! "y")
  ∧ (∀ y, ∃ u, changes (effects (handle (SliderY y)) s) = [u]
               ∧ ∀ prev, u prev !! "x" = prev !! "x").
Proof.
  split; [|split].
  - eapply Forall_impl; [apply handle_changes_Forall|].
    intros u (position & Hu). split; [|split].
    + intros prev k Hx Hy. rewrite Hu. unfold spread.
      apply lookup_union_r. by apply partialUpdate_other.
    + intros prev k [v Hv]. rewrite Hu. unfold spread.
      destruct (partialUpdate position !! k) as [v'|] eqn:E.
      * exists v'. by apply lookup_union_Some_l.
      * exists v. by rewrite lookup_union_r.
    + intros prev. rewrite !Hu. unfold spread.
      by rewrite (assoc_L (∪)), (idemp_L (∪)).
  - intros x. destruct (slider_changes_x x s) as (u & E & Hu).
    exists u. split; [exact E|]. intros prev. rewrite Hu. unfold spread.
    apply lookup_union_r. rewrite partialUpdate_only_x.
    by destruct (ToBoolean _).
  - intros y. destruct (slider_changes_y y s) as (u & E & Hu).
    exists u. split; [exact E|]. intros prev. rewrite Hu. unfold spread.
    apply lookup_union_r. rewrite partialUpdate_only_y.
    by destruct (ToBoolean _).
Qed.

(** ** The scroll host, the tooltip and the placeholder *)

Lemma handle_scrollCalls e s :
  scrollCalls (effects (handle e) s) = scrollOf e.
Proof.
  destruct e as [fp|w h|x y|dx dy|x y|x|y| |h w]; try reflexivity.
  - by rewrite effects_handle_Render.
  - cbn [handle]. by rewrite onLayout_effects.
Qed.

Lemma scrollCalls_app out1 out2 :
  scrollCalls (out1 ++ out2) = scrollCalls out1 ++ scrollCalls out2.
Proof. unfold scrollCalls. apply omap_app. Qed.

Lemma run_scrollCalls events s :
  scrollCalls (effects (run events) s) = flat_map scrollOf events.
Proof.
  revert s. induction events as [|e events IH]; intros s; [reflexivity|].
  rewrite effects_run_cons, scrollCalls_app, handle_scrollCalls, IH.
  reflexivity.
Qed.

(** X6: over any trace the calls to [shouldEnableBottomSheetScroll] are one
    [false] per grant and one [true] per release, in the order of the events,
    and no other handler calls it; so after a trace that ends with a release
    the last word to the scroll host is [true]. *)
Theorem scroll_host_follows_gestures (events : list Event) (s : State) :
  scrollCalls (effects (run events) s) = flat_map scrollOf events
  ∧ ∀ x y,
      last (scrollCalls (effects (run (events ++ [Release x y])) s)) = Some true.
Proof.
  split; [apply run_scrollCalls|].
  intros x y. rewrite run_scrollCalls, flat_map_app. cbn [flat_map scrollOf app].
  apply last_snoc.
Qed.

Lemma handle_flags e s :
  tooltipVisible (stateAfter (handle e) s)
  = tooltipVisible s && negb (isRelease e)
  ∧ displayPlaceholder (stateAfter (handle e) s)
    = displayPlaceholder s && negb (isLoad e).
Proof.
  destruct e as [fp|w h|x y|dx dy|x y|x|y| |h w];
    cbn [isRelease isLoad negb]; rewrite ?andb_true_r, ?andb_false_r;
    try (split; reflexivity).
  - rewrite stateAfter_handle_Render, render_stateAfter.
    by destruct (containerSize s).
  - cbn [handle]. rewrite onLayout_stateAfter. by destruct (layoutGuard _ _ _).
Qed.

(** X7: the tooltip and the media placeholder only ever go away.  After any
    trace the tooltip is visible exactly if it was and no release occurred,
    and the placeholder is displayed exactly if it was and neither an image
    nor a video reported its load. *)
Theorem tooltip_and_placeholder_only_go_away (events : list Event) (s : State) :
  tooltipVisible (stateAfter (run events) s)
  = tooltipVisible s && negb (existsb isRelease events)
  ∧ mediaPlaceholderStyles (stateAfter (run events) s)
    = mediaPlaceholderStyles s && negb (existsb isLoad events).
Proof.
  unfold mediaPlaceholderStyles.
  revert s. induction events as [|e events IH]; intros s.
  - cbn. by rewrite !andb_true_r.
  - rewrite stateAfter_run_cons.
    destruct (IH (stateAfter (handle e) s)) as [-> ->].
    destruct (handle_flags e s) as [-> ->].
    cbn [existsb]. by rewrite !negb_orb, !andb_assoc.
Qed.

(** ** Ending a gesture *)

Lemma js_add_0_r a : js_add a (ofZ 0) = a.
Proof.
  destruct a as [p| | |]; try reflexivity.
  unfold ofZ, js_add. f_equal. change (Q2Qc (inject_Z 0)) with 0%Qc. ring.
Qed.

Lemma flattenOffset_getValue (a : Animated.Value) :
  Animated.getValue (Animated.flattenOffset a) = Animated.getValue a.
Proof. unfold Animated.getValue, Animated.flattenOffset. cbn. apply js_add_0_r. Qed.

Lemma release_pan x y s :
  pan (stateAfter (onPanResponderRelease x y) s)
  = Animated.flattenOffsetXY (pan s).
Proof. reflexivity. Qed.

Lemma gesture_pan s x y dx dy (earlier : list (number * number)) :
  pan (stateAfter (run (moves (earlier ++ [(dx, dy)])))
         (stateAfter (onPanResponderGrant x y) s))
  = Animated.mkValueXY (Animated.mkValue dx x) (Animated.mkValue dy y).
Proof.
  rewrite stateAfter_moves_snoc, move_pan.
  pose proof (moves_offset earlier (stateAfter (onPanResponderGrant x y) s)) as Ho.
  rewrite grant_pan in Ho. unfold Animated.getOffsetXY in Ho.
  cbn [Animated.x Animated.y Animated._offset] in Ho.
  by injection Ho as -> ->.
Qed.

(** X8: a release never moves the cursor.  In any state it leaves the animated
    value plus offset of both axes as they were and resets both offsets to
    zero, so that a grant followed by moves ending with (dx, dy) and a release
    leaves the tracked value at the baseline plus (dx, dy) with no offset. *)
Theorem release_flattens_the_offset (s : State) (x y x' y' dx dy : number)
    (earlier : list (number * number)) :
  Animated.getValueXY (pan (stateAfter (onPanResponderRelease x' y') s))
  = Animated.getValueXY (pan s)
  ∧ Animated.getOffsetXY (pan (stateAfter (onPanResponderRelease x' y') s))
    = (ofZ 0, ofZ 0)
  ∧ pan (stateAfter
           (run (Grant x y :: moves (earlier ++ [(dx, dy)]) ++ [Release x' y'])) s)
    = Animated.mkValueXY
        (Animated.mkValue (js_add x dx) (ofZ 0))
        (Animated.mkValue (js_add y dy) (ofZ 0)).
Proof.
  split; [|split].
  - rewrite release_pan. unfold Animated.getValueXY, Animated.flattenOffsetXY.
    cbn [Animated.x Animated.y]. by rewrite !flattenOffset_getValue.
  - reflexivity.
  - rewrite stateAfter_run_cons, stateAfter_run_app, stateAfter_run_cons.
    change (stateAfter (run []) ?t) with t. cbn [handle].
    rewrite release_pan, gesture_pan.
    unfold Animated.flattenOffsetXY, Animated.flattenOffset. cbn.
    by rewrite (js_add_comm dx x), (js_add_comm dy y).
Qed.

(** ** Rendering *)

Lemma render_unchanged_fields focalPoint s :
  let s' := stateAfter (render focalPoint) s in
  containerSize s' = containerSize s
  ∧ sliderKey s' = sliderKey s
  ∧ tooltipVisible s' = tooltipVisible s
  ∧ displayPlaceholder s' = displayPlaceholder s
  ∧ videoNaturalSize s' = videoNaturalSize s
  ∧ Animated.getOffsetXY (pan s') = Animated.getOffsetXY (pan s).
Proof.
  intros s'. subst s'. rewrite render_stateAfter.
  destruct (containerSize s) eqn:E; repeat split; done.
Qed.

(** X9: a render calls no callback and changes nothing but the tracked value
    of the cursor, and rendering the same focal point twice is rendering it
    once.  While the container is unmeasured it leaves the state as it is;
    once measured it sets the value of each axis to the focal point's fraction
    times the dimension and keeps the offsets, and an axis missing from the
    focal point gives the value NaN. *)
Theorem render_places_the_cursor (s : State) (focalPoint : obj) :
  let s' := stateAfter (render focalPoint) s in
  effects (render focalPoint) s = []
  ∧ stateAfter (render focalPoint) s' = s'
  ∧ (containerSize s' = containerSize s
     ∧ sliderKey s' = sliderKey s
     ∧ tooltipVisible s' = tooltipVisible s
     ∧ displayPlaceholder s' = displayPlaceholder s
     ∧ videoNaturalSize s' = videoNaturalSize s
     ∧ Animated.getOffsetXY (pan s') = Animated.getOffsetXY (pan s))
  ∧ match containerSize s with
    | None => s' = s
    | Some sz =>
        Animated._value (Animated.x (pan s'))
        = js_mul (ToNumber (get focalPoint "x")) (width sz)
        ∧ Animated._value (Animated.y (pan s'))
          = js_mul (ToNumber (get focalPoint "y")) (height sz)
        ∧ (focalPoint !! "x" = None → Animated._value (Animated.x (pan s')) = NaN)
        ∧ (focalPoint !! "y" = None → Animated._value (Animated.y (pan s')) = NaN)
    end.
Proof.
  intros s'. split; [apply render_effects|].
  split; [|split; [apply render_unchanged_fields|]].
  - subst s'. rewrite !render_stateAfter.
    destruct (containerSize s) as [sz|] eqn:E.
    + change (containerSize (stateAfter (onPan ?f) s)) with (containerSize s).
      by rewrite E.
    + by rewrite E.
  - subst s'. rewrite render_stateAfter.
    destruct (containerSize s) as [sz|]; [|reflexivity].
    split; [reflexivity|]. split; [reflexivity|].
    split; intros Hnone; cbn; unfold get; by rewrite Hnone.
Qed.

(** ** The slider keys *)

(** X10: the two sliders never share a key, and over any trace the key of each
    slider is the one it had before exactly when the trace contains no
    release: a completed drag remounts both sliders, nothing else does. *)
Theorem slider_keys_change_on_release (events : list Event) (s : State)
    (focalPoint focalPoint' : obj) :
  let before := result (render focalPoint) s in
  let after := result (render focalPoint') (stateAfter (run events) s) in
  rc_key before.1 ≠ rc_key before.2
  ∧ (rc_key after.1 = rc_key before.1 ↔ existsb isRelease events = false)
  ∧ (rc_key after.2 = rc_key before.2 ↔ existsb isRelease events = false).
Proof.
  intros before after. subst before after. rewrite !render_result.
  cbn [fst snd rc_key]. rewrite run_sliderKey.
  assert (H : releases events = 0 ↔ existsb isRelease events = false).
  { unfold releases. induction events as [|e events IH]; [done|].
    cbn [List.filter existsb]. destruct (isRelease e); cbn [length orb]; [|exact IH].
    split; [lia|done]. }
  split; [by intros [=]|].
  pose proof (releases_nonneg events).
  split; (split; [intros [= E]; apply H; lia | intros E%H; by rewrite E, Z.add_0_r]).
Qed.

(** ** Slider edits come back *)

Lemma Qfloor_plus_half (p : Z) : Qfloor (inject_Z p + (1 # 2)) = p.
Proof.
  pose proof (Qfloor_le (inject_Z p + (1 # 2))) as Hlo.
  pose proof (Qlt_floor (inject_Z p + (1 # 2))) as Hhi.
  set (r := Qfloor (inject_Z p + (1 # 2))) in *.
  assert (H1 : (inject_Z r < inject_Z (p + 1))%Q).
  { rewrite inject_Z_plus. change (inject_Z 1) with 1%Q. lra. }
  assert (H2 : (inject_Z p < inject_Z (r + 1))%Q) by lra.
  rewrite <- Zlt_Qlt in H1, H2. lia.
Qed.

(** A percentage divided by 100, multiplied by 100 and rounded is itself. *)
Lemma percent_comes_back (p : Z) :
  Math_round (js_mul (js_div (ofZ p) (ofZ 100)) (ofZ 100)) = ofZ p.
Proof.
  unfold ofZ at 1 2. rewrite js_div_Finite by done.
  unfold ofZ at 1. cbn [js_mul].
  replace (Q2Qc (inject_Z p) / Q2Qc (inject_Z 100) * Q2Qc (inject_Z 100))%Qc
    with (Q2Qc (inject_Z p)) by (field; done).
  unfold Math_round. f_equal.
  rewrite <- (Qfloor_plus_half p) at 2. apply Qfloor_comp.
  cbn [this Qcplus Q2Qc]. by rewrite !Qred_correct.
Qed.

Lemma get_spread_l (o1 o2 : obj) k v :
  o2 !! k = Some v → get (spread o1 o2) k = v.
Proof. intros H. unfold get, spread. by rewrite (lookup_union_Some_l _ _ _ _ H). Qed.

Lemma get_spread_r (o1 o2 : obj) k :
  o2 !! k = None → get (spread o1 o2) k = get o1 k.
Proof. intros H. unfold get, spread. by rewrite lookup_union_r. Qed.

(** X12: a slider edit comes back to the slider.  For a percentage from 1 to
    100 reported by the x slider, applying the updater handed to [onChange] to
    any focal point and rendering the outcome gives the x slider that same
    percentage as its value and the y slider the value it had; likewise with
    the axes exchanged. *)
Theorem slider_edit_comes_back (s s' : State) (p : Z) (prev : obj) :
  1 ≤ p ≤ 100 →
  (∃ u, changes (effects (handle (SliderX (ofZ p))) s) = [u]
        ∧ rc_value (result (render (u prev)) s').1 = ofZ p
        ∧ rc_value (result (render (u prev)) s').2
          = rc_value (result (render prev) s').2)
  ∧ (∃ u, changes (effects (handle (SliderY (ofZ p))) s) = [u]
          ∧ rc_value (result (render (u prev)) s').2 = ofZ p
          ∧ rc_value (result (render (u prev)) s').1
            = rc_value (result (render prev) s').1).
Proof.
  intros Hp. pose proof (percent_truthy p Hp) as Ht. split.
  - destruct (slider_changes_x (ofZ p) s) as (u & E & Hu).
    exists u. split; [exact E|]. rewrite !render_result. cbn [fst snd rc_value].
    rewrite Hu, partialUpdate_only_x, Ht.
    rewrite (get_spread_l _ _ "x" (Num (js_div (ofZ p) (ofZ 100))))
      by apply lookup_singleton_eq.
    rewrite (get_spread_r _ _ "y") by (by apply lookup_singleton_ne).
    split; [apply percent_comes_back | reflexivity].
  - destruct (slider_changes_y (ofZ p) s) as (u & E & Hu).
    exists u. split; [exact E|]. rewrite !render_result. cbn [fst snd rc_value].
    rewrite Hu, partialUpdate_only_y, Ht.
    rewrite (get_spread_l _ _ "y" (Num (js_div (ofZ p) (ofZ 100))))
      by apply lookup_singleton_eq.
    rewrite (get_spread_r _ _ "x") by (by apply lookup_singleton_ne).
    split; [apply percent_comes_back | reflexivity].
Qed.

Lemma slider_edit_comes_back_witness :
  ∃ u, changes (effects (handle (SliderX (ofZ 40))) initialState) = [u]
       ∧ rc_value (result (render (u ∅)) initialState).1 = ofZ 40.
Proof.
  destruct (slider_edit_comes_back initialState initialState 40 ∅)
    as [(u & E & Hx & _) _]; [lia|].
  exists u. by split.
Defined.

(** ** The video's natural size *)

Lemma handle_videoNaturalSize e s :
  videoNaturalSize (stateAfter (handle e) s)
  = match e with
    | VideoLoad h w => Some (mkSize w h)
    | _ => videoNaturalSize s
    end.
Proof.
  destruct e as [fp|w h|x y|dx dy|x y|x|y| |h w]; try reflexivity.
  - rewrite stateAfter_handle_Render, render_stateAfter.
    by destruct (containerSize s).
  - cbn [handle]. rewrite onLayout_stateAfter. by destruct (layoutGuard _ _ _).
Qed.

Lemma run_videoNaturalSize_unchanged events s :
  existsb isVideoLoad events = false →
  videoNaturalSize (stateAfter (run events) s) = videoNaturalSize s.
Proof.
  revert s. induction events as [|e events IH]; intros s H; [reflexivity|].
  cbn [existsb] in H. apply orb_false_iff in H as [He H].
  rewrite stateAfter_run_cons, IH, handle_videoNaturalSize by done.
  by destruct e.
Qed.

(** X13: the aspect ratio of the video style is null until a video reports its
    load and is then the width over the height of the last report, whatever
    else happened since; nothing guards a zero height, which gives a
    non-finite ratio. *)
Theorem aspect_ratio_is_last_video_load (events later : list Event) (s : State)
    (h w : number) :
  existsb isVideoLoad later = false →
  aspectRatio (stateAfter (run (events ++ VideoLoad h w :: later)) s)
  = Some (js_div w h)
  ∧ aspectRatio (stateAfter (run later) initialState) = None
  ∧ (∀ q : Qc, q ≠ 0%Qc →
       ∃ positive : bool,
         aspectRatio (stateAfter (onLoad (ofZ 0) (Finite q)) s)
         = Some (infinity positive))
  ∧ aspectRatio (stateAfter (onLoad (ofZ 0) (ofZ 0)) s) = Some NaN.
Proof.
  intros Hlater. split; [|split; [|split]].
  - unfold aspectRatio.
    rewrite stateAfter_run_app, stateAfter_run_cons.
    rewrite run_videoNaturalSize_unchanged by done.
    by rewrite handle_videoNaturalSize.
  - unfold aspectRatio. by rewrite run_videoNaturalSize_unchanged.
  - intros q Hq. exists (bool_decide (0 < q)%Qc).
    change (aspectRatio (stateAfter (onLoad (ofZ 0) (Finite q)) s))
      with (Some (js_div (Finite q) (ofZ 0))).
    f_equal. unfold js_div, ofZ.
    rewrite (bool_decide_eq_true_2 (Q2Qc (inject_Z 0) = 0%Qc)) by done.
    by rewrite (bool_decide_eq_false_2 _ Hq).
  - reflexivity.
Qed.

Lemma aspect_ratio_is_last_video_load_witness :
  aspectRatio
    (stateAfter (run ([VideoLoad (ofZ 10) (ofZ 10)]
                      ++ VideoLoad (ofZ 9) (ofZ 16) :: [ImageDataLoad]))
       initialState)
  = Some (js_div (ofZ 16) (ofZ 9)).
Proof.
  exact (proj1 (aspect_ratio_is_last_video_load
                  [VideoLoad (ofZ 10) (ofZ 10)] [ImageDataLoad] initialState
                  (ofZ 9) (ofZ 16) eq_refl)).
Defined.

(** ** The post lock modal: heartbeat and render *)

(** X14: [sendPostLock] writes the lock refresh only while the post is not
    locked by someone else: then the data carries the active lock and the
    post id under the refresh key, replacing what was there; when locked the
    data is left as it is.  Either way every other key keeps its value, no
    key is removed, and sending twice is sending once. *)
Theorem sendPostLock_writes_only_the_refresh_key
    (props : PostLockedModal.Props)
    (data : gmap string PostLockedModal.HeartbeatValue) :
  let sent := PostLockedModal.sendPostLock props data in
  sent !! PostLockedModal.REFRESH_KEY
  = (if PostLockedModal.isLocked props
     then data !! PostLockedModal.REFRESH_KEY
     else Some (PostLockedModal.RefreshPostLock
                  (PostLockedModal.activePostLock props)
                  (PostLockedModal.postId props)))
  ∧ (∀ k, k ≠ PostLockedModal.REFRESH_KEY → sent !! k = data !! k)
  ∧ dom data ⊆ dom sent
  ∧ PostLockedModal.sendPostLock props sent = sent.
Proof.
  intros sent. subst sent. unfold PostLockedModal.sendPostLock.
  destruct (PostLockedModal.isLocked props).
  - repeat split; done.
  - split; [apply lookup_insert_eq|].
    split; [intros k Hk; by apply lookup_insert_ne|].
    split; [rewrite dom_insert_L; set_solver|].
    apply insert_insert_eq.
Qed.

(** X15: what a heartbeat tick makes of its refresh entry.  It autosaves
    exactly when the entry carries a lock error.  It updates the lock with
    exactly one of two objects: on a lock error, whether or not a new lock
    came along, the takeover (locked, taken over, the user being the avatar of
    the error and no name); without one, on a non-empty new lock, the unlocked
    post with that lock as its active lock.  The update is the only call or
    directly follows the autosave, and a tick never posts; so a missing entry
    or an empty or missing new lock makes no call at all. *)
Theorem receivePostLock_takeover_wins
    (data : gmap string PostLockedModal.Received) :
  let out := PostLockedModal.receivePostLock data in
  (PostLockedModal.autosave ∈ out
   ↔ ∃ r e, data !! PostLockedModal.REFRESH_KEY = Some r
            ∧ PostLockedModal.lock_error r = Some e)
  ∧ (∀ l, PostLockedModal.updatePostLock l ∈ out
          ↔ (∃ r e, data !! PostLockedModal.REFRESH_KEY = Some r
                    ∧ PostLockedModal.lock_error r = Some e
                    ∧ l = PostLockedModal.mkLockUpdate true (Some true)
                            (Some (PostLockedModal.mkUser None
                                     (PostLockedModal.avatar_src e)))
                            None)
            ∨ (∃ r t, data !! PostLockedModal.REFRESH_KEY = Some r
                      ∧ PostLockedModal.lock_error r = None
                      ∧ PostLockedModal.new_lock r = Some t
                      ∧ t ≠ ""
                      ∧ l = PostLockedModal.mkLockUpdate false None None
                              (Some t)))
  ∧ (∀ l, PostLockedModal.updatePostLock l ∈ out →
          out = [PostLockedModal.updatePostLock l]
          ∨ out = [PostLockedModal.autosave; PostLockedModal.updatePostLock l])
  ∧ (∀ request, PostLockedModal.jQuery_post request ∉ out)
  ∧ (length (List.filter isUpdate out) ≤ 1)%nat.
Proof.
  intros out. subst out. unfold PostLockedModal.receivePostLock.
  destruct (data !! PostLockedModal.REFRESH_KEY) as [[[e|] nl]|] eqn:E;
    cbn [PostLockedModal.lock_error PostLockedModal.new_lock].
  - split; [|split; [|split; [|split]]].
    + split; [eauto|]. intros _. apply list_elem_of_here.
    + intros l. split.
      * intros [[=]|Hl%list_elem_of_singleton]%elem_of_cons.
        injection Hl as ->. left. by exists (PostLockedModal.mkReceived (Some e) nl), e.
      * intros [(r & e' & [= <-] & [= <-] & ->)|(r & t & [= <-] & [=] & _)].
        apply list_elem_of_further, list_elem_of_here.
    + intros l [[=]|Hl%list_elem_of_singleton]%elem_of_cons.
      injection Hl as ->. by right.
    + intros request [[=]|[=]%list_elem_of_singleton]%elem_of_cons.
    + cbn. lia.
  - destruct nl as [t|]; cbn [PostLockedModal.truthy].
    + case_bool_decide as Ht.
      * split; [|split; [|split; [|split]]].
        -- split; [intros [=]%list_elem_of_singleton|].
           intros (r & e & [= <-] & [=]).
        -- intros l. split.
           ++ intros Hl%list_elem_of_singleton. injection Hl as ->.
              right. by exists (PostLockedModal.mkReceived None (Some t)), t.
           ++ intros [(r & e & [= <-] & [=] & _)|(r & t' & [= <-] & _ & [= <-] & _ & ->)].
              apply list_elem_of_here.
        -- intros l Hl%list_elem_of_singleton. injection Hl as ->. by left.
        -- intros request [=]%list_elem_of_singleton.
        -- cbn. lia.
      * split; [|split; [|split; [|split]]].
        -- split; [intros []%elem_of_nil|]. intros (r & e & [= <-] & [=]).
        -- intros l. split; [intros []%elem_of_nil|].
           intros [(r & e & [= <-] & [=] & _)|(r & t' & [= <-] & _ & [= <-] & Hne & _)].
           exfalso. first [ by apply Ht | by apply Hne ].
        -- intros l []%elem_of_nil.
        -- intros request []%elem_of_nil.
        -- cbn. lia.
    + split; [|split; [|split; [|split]]].
      * split; [intros []%elem_of_nil|]. intros (r & e & [= <-] & [=]).
      * intros l. split; [intros []%elem_of_nil|].
        intros [(r & e & [= <-] & [=] & _)|(r & t' & [= <-] & _ & [=] & _)].
      * intros l []%elem_of_nil.
      * intros request []%elem_of_nil.
      * cbn. lia.
  - split; [|split; [|split; [|split]]].
    + split; [intros []%elem_of_nil|]. intros (r & e & [=] & _).
    + intros l. split; [intros []%elem_of_nil|].
      intros [(r & e & [=] & _)|(r & t' & [=] & _)].
    + intros l []%elem_of_nil.
    + intros request []%elem_of_nil.
    + cbn. lia.
Qed.

(** X16: [releasePostLock] posts exactly when the post is not locked by
    someone else and there is a non-empty active lock, and then makes one
    synchronous request to the ajax URL that removes the lock of this post
    with the unlock nonce; whenever it posts, [sendPostLock] with the same
    props writes that same lock and post id into the heartbeat. *)
Theorem releasePostLock_posts_iff_holding_a_lock
    (props : PostLockedModal.Props)
    (data : gmap string PostLockedModal.HeartbeatValue) :
  let out := PostLockedModal.releasePostLock props in
  (out ≠ []
   ↔ PostLockedModal.isLocked props = false
     ∧ ∃ t, t ≠ "" ∧ PostLockedModal.activePostLock props = Some t)
  ∧ (out = []
     ∨ ∃ t, t ≠ ""
         ∧ out = [ PostLockedModal.jQuery_post
                     (PostLockedModal.mkRequest false
                        (PostLockedModal.ajaxUrl (PostLockedModal.postLockUtils props))
                        (PostLockedModal.mkRemoveLockData "wp-remove-post-lock"
                           (PostLockedModal.unlockNonce (PostLockedModal.postLockUtils props))
                           (PostLockedModal.postId props)
                           (Some t))) ]
         ∧ PostLockedModal.sendPostLock props data !! PostLockedModal.REFRESH_KEY
           = Some (PostLockedModal.RefreshPostLock (Some t) (PostLockedModal.postId props))).
Proof.
  intros out. subst out.
  unfold PostLockedModal.releasePostLock, PostLockedModal.sendPostLock.
  destruct (PostLockedModal.isLocked props) eqn:El; cbn [orb].
  { split; [|by left]. split; [done|]. by intros [[=] _]. }
  destruct (PostLockedModal.activePostLock props) as [t|] eqn:Ea;
    cbn [PostLockedModal.truthy negb].
  - case_bool_decide as Ht; cbn [negb].
    + split; [split; [eauto|done]|].
      right. exists t. split; [done|]. split; [done|]. apply lookup_insert_eq.
    + split; [|by left]. split; [done|]. intros [_ (t' & Ht' & [= ->])].
      by destruct Ht.
  - split; [|by left]. split; [done|]. by intros [_ (t' & _ & [=])].
Qed.

(** X17: [render] gives null exactly when the post is not locked, and fails
    exactly when it is locked with no user.  A modal it gives cannot be
    dismissed; it shows the takeover section exactly in a takeover and the
    locked section, with the take-over link for this post and nonce, exactly
    otherwise, never both and never neither; it shows the avatar exactly when
    the user's avatar is a non-empty string, and names the user exactly when
    the user's name is one. *)
Theorem render_shows_one_section (props : PostLockedModal.Props) :
  (PostLockedModal.render props = PostLockedModal.Null
   ↔ PostLockedModal.isLocked props = false)
  ∧ (PostLockedModal.render props = PostLockedModal.TypeError
     ↔ PostLockedModal.isLocked props = true ∧ PostLockedModal.user props = None)
  ∧ ∀ m, PostLockedModal.render props = PostLockedModal.Element m →
      ∃ u, PostLockedModal.user props = Some u
      ∧ (PostLockedModal.shouldCloseOnClickOutside m = false
         ∧ PostLockedModal.shouldCloseOnEsc m = false
         ∧ PostLockedModal.isDismissable m = false)
      ∧ (is_Some (PostLockedModal.takeoverSection m)
         ↔ PostLockedModal.isTakeover props = true)
      ∧ (is_Some (PostLockedModal.lockedSection m)
         ↔ PostLockedModal.isTakeover props = false)
      ∧ (∀ sec, PostLockedModal.lockedSection m = Some sec →
           PostLockedModal.locked_takeOver sec = PostLockedModal.unlockUrl props)
      ∧ (PostLockedModal.avatarImg m
         = if PostLockedModal.truthy (PostLockedModal.avatar u)
           then PostLockedModal.avatar u else None)
      ∧ (∀ msg,
           (∃ sec, PostLockedModal.takeoverSection m = Some sec
                   ∧ PostLockedModal.takeover_message sec = msg)
           ∨ (∃ sec, PostLockedModal.lockedSection m = Some sec
                     ∧ PostLockedModal.locked_message sec = msg) →
           if PostLockedModal.truthy (PostLockedModal.name u)
           then ∃ template, msg = PostLockedModal.sprintf template
                                    (default "" (PostLockedModal.name u))
           else ∃ content, msg = PostLockedModal.text content).
Proof.
  unfold PostLockedModal.render.
  destruct (PostLockedModal.isLocked props) eqn:El; cbn [negb].
  2: { split; [done|]. split; [split; [done|by intros [[=] _]]|done]. }
  destruct (PostLockedModal.user props) as [u|] eqn:Eu.
  2: { split; [done|]. split; [done|]. done. }
  split; [done|]. split; [split; [done|by intros [_ [=]]]|].
  intros m [= <-]. exists u. split; [done|].
  cbn [PostLockedModal.shouldCloseOnClickOutside PostLockedModal.shouldCloseOnEsc
       PostLockedModal.isDismissable PostLockedModal.takeoverSection
       PostLockedModal.lockedSection PostLockedModal.avatarImg].
  split; [done|].
  destruct (PostLockedModal.isTakeover props); cbn [negb].
  - split; [split; [done|eauto]|]. split; [split; [by intros [? [=]]|done]|].
    split; [by intros sec [=]|]. split; [done|].
    intros msg [(sec & [= <-] & <-)|(sec & [=] & _)].
    cbn. unfold PostLockedModal.message.
    destruct (PostLockedModal.truthy (PostLockedModal.name u)); eauto.
  - split; [split; [by intros [? [=]]|done]|]. split; [split; [done|eauto]|].
    split; [by intros sec [= <-]|]. split; [done|].
    intros msg [(sec & [=] & _)|(sec & [= <-] & <-)].
    cbn. unfold PostLockedModal.message.
    destruct (PostLockedModal.truthy (PostLockedModal.name u)); eauto.
Qed.

(** ** Cross-check on binary64

    At the inputs of the scenarios above, the operation carried out on doubles
    and read back exactly gives what the idealised operation gives. *)

#[local] Set Warnings "-inexact-float".

Example binary64_slider_75 :
  Binary64.exact (PrimFloat.div 75%float 100%float) = js_div (ofZ 75) (ofZ 100)
  ∧ Binary64.exact (PrimFloat.div 0%float 100%float) = js_div (ofZ 0) (ofZ 100).
Proof. split; compute_done. Qed.

Example binary64_roundtrip :
  Binary64.exact (PrimFloat.mul 0.5%float 200%float) = js_mul (ofQ (1 # 2)) (ofZ 200)
  ∧ Binary64.exact (PrimFloat.mul 0.25%float 100%float) = js_mul (ofQ (1 # 4)) (ofZ 100)
  ∧ Binary64.exact (PrimFloat.div 100%float 200%float) = js_div (ofZ 100) (ofZ 200)
  ∧ Binary64.exact (PrimFloat.div 25%float 100%float) = js_div (ofZ 25) (ofZ 100).
Proof. repeat split; compute_done. Qed.

Example binary64_release_outside :
  Binary64.exact (PrimFloat.div 300%float 200%float) = js_div (ofZ 300) (ofZ 200)
  ∧ Binary64.exact (PrimFloat.div 50%float nan) = js_div (ofZ 50) NaN.
Proof. split; compute_done. Qed.

Example binary64_slider_display :
  Binary64.exact (Binary64.Math_round (PrimFloat.mul 0.333%float 100%float)) = ofZ 33
  ∧ Binary64.exact (Binary64.Math_round (PrimFloat.mul 0.335%float 100%float)) = ofZ 34
  ∧ Binary64.exact (Binary64.Math_round (PrimFloat.mul 0.333%float 100%float))
    = Math_round (js_mul (ofQ (333 # 1000)) (ofZ 100))
  ∧ Binary64.exact (Binary64.Math_round (PrimFloat.mul 0.335%float 100%float))
    = Math_round (js_mul (ofQ (335 # 1000)) (ofZ 100)).
Proof. repeat split; compute_done. Qed.

Example binary64_drag_move :
  Binary64.exact (PrimFloat.add 20%float 10%float) = js_add (ofZ 20) (ofZ 10)
  ∧ Binary64.exact (PrimFloat.add (-5)%float 10%float) = js_add (ofZ (-5)) (ofZ 10).
Proof. split; compute_done. Qed.

(** The agreement is not general: a product of doubles is rounded, the
    product of the numbers they stand for is not. *)
Remark binary64_rounds :
  Binary64.exact (PrimFloat.mul 0.07%float 100%float)
  ≠ js_mul (Binary64.exact 0.07%float) (ofZ 100).
Proof. compute_done. Qed.

(** On doubles too, every percentage from 0 to 100 comes back from the
    division by 100, the multiplication by 100 and the rounding, and agrees
    there with the idealised numbers. *)
Example binary64_percent_comes_back :
  forallb
    (λ p : Z,
       let f := PrimFloat.of_uint63 (Uint63.of_Z p) in
       bool_decide
         (Binary64.exact
            (Binary64.Math_round
               (PrimFloat.mul (PrimFloat.div f 100%float) 100%float))
          = Math_round (js_mul (js_div (ofZ p) (ofZ 100)) (ofZ 100))))
    (seqZ 0 101)
  = true.
Proof. vm_compute. reflexivity. Qed.
